(** * Simple Task Queue: a worker pool with bounded retry

    A model of [Simple Task Queue/Task Queue.py].  The class [TaskQueue]
    owns a [queue.Queue] of work items [(task, retries)], a list of worker
    threads and a shared flag [running].  The threads are modelled by an
    interleaving semantics: every worker has a program point, and one
    [action] of the trace moves the submitting caller, the caller of
    [shutdown], or one worker by one atomic step.

    Time is not modelled: a worker waiting in [get(timeout=1)] on an empty
    queue that is scheduled has waited out its timeout.  A call [task()] is
    one atomic step whose outcome is given by the parameter [behaviour];
    what else the task does is outside the pool.  The field [history]
    records what the pool did and is read by no operation but the lookup of
    [behaviour]; [print] appends to it. *)

From stdpp Require Import base option list list_numbers strings.
From Stdlib Require Import ZArith Lia.

(** ** Work items and task outcomes *)

(** A task is an opaque zero-argument callable; only its identity and what a
    call does (return or raise) matter to the pool. *)
Definition task : Type := nat.

(** The tuple [(task, retries)] that [submit] puts on the queue. *)
Definition item : Type := (task * Z)%type.

(** What one call [task()] does.  [Fails] is an exception that is an
    instance of [Exception], the class named by the handler of [worker];
    [Exits] is one that is not ([SystemExit], [KeyboardInterrupt],
    [GeneratorExit]: direct subclasses of [BaseException]). *)
Inductive outcome : Type :=
  | Returns
  | Fails
  | Exits.

Global Instance outcome_eq_dec : EqDecision outcome.
Proof. solve_decision. Defined.

(** ** [queue.Queue] of the Python library

    The three fields the operations used here read and write: [maxsize]
    (0 for [queue.Queue()]: no bound), the deque [queue] and the counter
    [unfinished_tasks] that [join] waits on. *)
Module Queue.

Record t : Type := mk {
  maxsize : Z;
  queue : list item;
  unfinished_tasks : Z
}.

(** [queue.Queue()] *)
Definition new : t :=
  {| maxsize := 0; queue := []; unfinished_tasks := 0 |}.

(** [put(item)]: with a positive [maxsize] and a full deque the caller
    waits ([None]: not enabled); otherwise the item goes to the right end
    of the deque and [unfinished_tasks] grows by one. *)
Definition put (x : item) (q : t) : option t :=
  if bool_decide (0 < maxsize q)%Z
     && bool_decide (maxsize q ≤ Z.of_nat (length (queue q)))%Z
  then None
  else Some {| maxsize := maxsize q;
               queue := queue q ++ [x];
               unfinished_tasks := (unfinished_tasks q + 1)%Z |}.

(** [get(timeout=1)]: the left end of the deque when there is one; [None]
    stands for the deque staying empty until the timeout, where [get]
    raises [queue.Empty]. *)
Definition get (q : t) : option (item * t) :=
  match queue q with
  | [] => None
  | x :: rest =>
      Some (x, {| maxsize := maxsize q;
                  queue := rest;
                  unfinished_tasks := unfinished_tasks q |})
  end.

(** [task_done()]: one less unfinished task; [None] is the [ValueError]
    raised when it is called more often than items were put. *)
Definition task_done (q : t) : option t :=
  let unfinished := (unfinished_tasks q - 1)%Z in
  if bool_decide (unfinished < 0)%Z then None
  else Some {| maxsize := maxsize q;
               queue := queue q;
               unfinished_tasks := unfinished |}.

(** [join()] returns once it sees [unfinished_tasks] at zero. *)
Definition join_returns (q : t) : bool :=
  bool_decide (unfinished_tasks q = 0%Z).

End Queue.

(** ** Program points of the method [worker] *)
Inductive pc : Type :=
  | WHead                        (* about to test [while self.running] *)
  | WGet                         (* in [self.task_queue.get(timeout=1)] *)
  | WCall (x : item)             (* item unpacked, about to call [task()] *)
  | WExcept (x : item)           (* in the handler, about to test [retries > 0] *)
  | WSubmit (x : item)           (* printed, about to call [self.submit] *)
  | WFinally (x : item) (raising : bool)
                                 (* about to call [task_done()]; [raising]:
                                    an exception is still propagating *)
  | WExited                      (* left the loop: [worker] returned *)
  | WDied.                       (* the thread ended by an uncaught exception *)

Global Instance pc_eq_dec : EqDecision pc.
Proof. solve_decision. Defined.

(** ** What the pool did, in the order it happened *)
Inductive event : Type :=
  | EvPut (x : item)                     (* [task_queue.put(x)] *)
  | EvGet (w : nat) (x : item)           (* worker [w] dequeued [x] *)
  | EvEmpty (w : nat)                    (* [get] of worker [w] timed out *)
  | EvCall (w : nat) (x : item) (o : outcome)   (* [task()] ran *)
  | EvPrint (w : nat) (msg : string)     (* [print(msg)] *)
  | EvDone (w : nat) (x : item)          (* [task_done()] for [x] *)
  | EvExit (w : nat)                     (* worker [w] left its loop *)
  | EvDie (w : nat).                     (* worker [w] ended by an exception *)

Global Instance event_eq_dec : EqDecision event.
Proof. solve_decision. Defined.

(** ** The object [TaskQueue] *)
Record TaskQueue : Type := mkTaskQueue {
  task_queue : Queue.t;
  workers : list pc;
  running : bool;
  history : list event
}.

Definition set_queue (q : Queue.t) (s : TaskQueue) : TaskQueue :=
  {| task_queue := q; workers := workers s;
     running := running s; history := history s |}.

Definition set_pc (w : nat) (p : pc) (s : TaskQueue) : TaskQueue :=
  {| task_queue := task_queue s; workers := <[w := p]> (workers s);
     running := running s; history := history s |}.

Definition log (e : event) (s : TaskQueue) : TaskQueue :=
  {| task_queue := task_queue s; workers := workers s;
     running := running s; history := history s ++ [e] |}.

(** [TaskQueue(num_workers)]: an empty queue, [running = True] and
    [num_workers] started threads, each at the head of its loop
    ([range] of a non-positive number is empty). *)
Definition init (num_workers : Z) : TaskQueue :=
  {| task_queue := Queue.new;
     workers := replicate (Z.to_nat num_workers) WHead;
     running := true;
     history := [] |}.

(** The default of the parameter [retries] of [submit]. *)
Definition default_retries : Z := 3.

(** [submit(task, retries=3)]: [self.task_queue.put((task, retries))]. *)
Definition submit (tk : task) (retries : option Z) (s : TaskQueue)
  : option TaskQueue :=
  let x := (tk, default default_retries retries) in
  q ← Queue.put x (task_queue s);
  Some (log (EvPut x) (set_queue q s)).

(** [shutdown()]: clears the flag; the timed [join] of the threads that
    follows changes no state of the pool. *)
Definition shutdown (s : TaskQueue) : TaskQueue :=
  {| task_queue := task_queue s; workers := workers s;
     running := false; history := history s |}.

(** Number of calls of task [tk] so far. *)
Definition is_call (tk : task) (e : event) : nat :=
  match e with
  | EvCall _ x _ => if decide (x.1 = tk) then 1 else 0
  | _ => 0
  end.

Definition calls (tk : task) (h : list event) : nat :=
  sum_list_with (is_call tk) h.

(** Lines printed so far. *)
Definition stdout (h : list event) : list string :=
  omap (λ e, match e with EvPrint _ msg => Some msg | _ => None end) h.

Section Pool.

(** What the [k]-th call (from 0) of each task does. *)
Variable behaviour : task → nat → outcome.

(** One atomic step of the thread running [worker], by program point.
    [None]: the thread cannot move (it has ended, or [put] waits). *)
Definition worker (w : nat) (s : TaskQueue) : option TaskQueue :=
  p ← workers s !! w;
  match p with
  | WHead =>
      (* while self.running: *)
      if running s then Some (set_pc w WGet s)
      else Some (log (EvExit w) (set_pc w WExited s))
  | WGet =>
      (* task, retries = self.task_queue.get(timeout=1)
         except queue.Empty: continue *)
      match Queue.get (task_queue s) with
      | Some (x, q) => Some (log (EvGet w x) (set_pc w (WCall x) (set_queue q s)))
      | None => Some (log (EvEmpty w) (set_pc w WHead s))
      end
  | WCall x =>
      (* try: task()
         except Exception as e: ...
         finally: ... *)
      let o := behaviour x.1 (calls x.1 (history s)) in
      let next := match o with
                  | Returns => WFinally x false
                  | Fails => WExcept x
                  | Exits => WFinally x true
                  end in
      Some (log (EvCall w x o) (set_pc w next s))
  | WExcept x =>
      (* if retries > 0: print("Retrying task...") *)
      if bool_decide (0 < x.2)%Z
      then Some (log (EvPrint w "Retrying task...") (set_pc w (WSubmit x) s))
      else Some (set_pc w (WFinally x false) s)
  | WSubmit x =>
      (* self.submit(task, retries - 1) *)
      s' ← submit x.1 (Some (x.2 - 1)%Z) s;
      Some (set_pc w (WFinally x false) s')
  | WFinally x raising =>
      (* finally: self.task_queue.task_done(); an exception still
         propagating, or the ValueError of task_done, is caught by no
         handler of the loop and ends the thread *)
      match Queue.task_done (task_queue s) with
      | Some q =>
          if raising
          then Some (log (EvDie w) (log (EvDone w x) (set_pc w WDied (set_queue q s))))
          else Some (log (EvDone w x) (set_pc w WHead (set_queue q s)))
      | None => Some (log (EvDie w) (set_pc w WDied s))
      end
  | WExited | WDied => None
  end.

(** The moves of the interleaving. *)
Inductive action : Type :=
  | ASubmit (tk : task) (retries : option Z)
  | AShutdown
  | AWorker (w : nat).

Definition step (a : action) (s : TaskQueue) : option TaskQueue :=
  match a with
  | ASubmit tk retries => submit tk retries s
  | AShutdown => Some (shutdown s)
  | AWorker w => worker w s
  end.

Fixpoint run (tr : list action) (s : TaskQueue) : option TaskQueue :=
  match tr with
  | [] => Some s
  | a :: tr' => s' ← step a s; run tr' s'
  end.

End Pool.

(** ** Measures on states used by the invariants *)

(** Calls an item with [retries = r] can still cause: itself and one per
    resubmission. *)
Definition budget (r : Z) : nat := S (Z.to_nat r).

Definition item_budget (tk : task) (x : item) : nat :=
  if decide (x.1 = tk) then budget x.2 else 0.

(** The same for the item a worker holds, by program point. *)
Definition pc_budget (tk : task) (p : pc) : nat :=
  match p with
  | WCall x => item_budget tk x
  | WExcept x => if decide (x.1 = tk) then Z.to_nat x.2 else 0
  | WSubmit x => item_budget tk (x.1, (x.2 - 1)%Z)
  | _ => 0
  end.

(** Calls given up: a call that did not fail with an [Exception] is not
    resubmitted, whatever [retries] was left. *)
Definition forfeit (tk : task) (e : event) : nat :=
  match e with
  | EvCall _ x Fails => 0
  | EvCall _ x _ => if decide (x.1 = tk) then Z.to_nat x.2 else 0
  | _ => 0
  end.

Definition potential (tk : task) (s : TaskQueue) : nat :=
  calls tk (history s)
  + sum_list_with (forfeit tk) (history s)
  + sum_list_with (item_budget tk) (Queue.queue (task_queue s))
  + sum_list_with (pc_budget tk) (workers s).

(** What a caller's action adds to the budget of [tk]. *)
Definition action_budget (tk : task) (a : action) : nat :=
  match a with
  | ASubmit tk' retries => item_budget tk (tk', default default_retries retries)
  | _ => 0
  end.

Definition trace_budget (tk : task) (tr : list action) : nat :=
  sum_list_with (action_budget tk) tr.

(** The [retries] arguments of the calls [submit(tk, retries)] of a trace. *)
Definition submissions (tk : task) (tr : list action) : list Z :=
  omap (λ a, match a with
             | ASubmit tk' retries =>
                 if decide (tk' = tk) then Some (default default_retries retries)
                 else None
             | _ => None
             end) tr.

(** The item a worker holds between [get] and [task_done]. *)
Definition held (p : pc) : option item :=
  match p with
  | WCall x | WExcept x | WSubmit x | WFinally x _ => Some x
  | _ => None
  end.

Definition holding (p : pc) : nat :=
  match held p with Some _ => 1 | None => 0 end.

(** The counter of [Queue] counts the queued and the held items, and the
    queue is the unbounded one of [__init__]. *)
Definition counter_ok (s : TaskQueue) : Prop :=
  Queue.maxsize (task_queue s) = 0%Z ∧
  Queue.unfinished_tasks (task_queue s)
  = Z.of_nat (length (Queue.queue (task_queue s))
              + sum_list_with holding (workers s)).

(** ** One step, case by case *)

(** Which program point moved to which, and what else changed. *)
Inductive wstep (behaviour : task → nat → outcome) (w : nat)
  : pc → TaskQueue → TaskQueue → Prop :=
  | ws_enter s :
      running s = true →
      wstep behaviour w WHead s (set_pc w WGet s)
  | ws_exit s :
      running s = false →
      wstep behaviour w WHead s (log (EvExit w) (set_pc w WExited s))
  | ws_get s x rest :
      Queue.queue (task_queue s) = x :: rest →
      wstep behaviour w WGet s
        (log (EvGet w x)
           (set_pc w (WCall x)
              (set_queue (Queue.mk (Queue.maxsize (task_queue s)) rest
                            (Queue.unfinished_tasks (task_queue s))) s)))
  | ws_empty s :
      Queue.queue (task_queue s) = [] →
      wstep behaviour w WGet s (log (EvEmpty w) (set_pc w WHead s))
  | ws_return s x :
      behaviour x.1 (calls x.1 (history s)) = Returns →
      wstep behaviour w (WCall x) s
        (log (EvCall w x Returns) (set_pc w (WFinally x false) s))
  | ws_fail s x :
      behaviour x.1 (calls x.1 (history s)) = Fails →
      wstep behaviour w (WCall x) s
        (log (EvCall w x Fails) (set_pc w (WExcept x) s))
  | ws_sysexit s x :
      behaviour x.1 (calls x.1 (history s)) = Exits →
      wstep behaviour w (WCall x) s
        (log (EvCall w x Exits) (set_pc w (WFinally x true) s))
  | ws_retry s x :
      (0 < x.2)%Z →
      wstep behaviour w (WExcept x) s
        (log (EvPrint w "Retrying task...") (set_pc w (WSubmit x) s))
  | ws_drop s x :
      (x.2 ≤ 0)%Z →
      wstep behaviour w (WExcept x) s (set_pc w (WFinally x false) s)
  | ws_resubmit s x q :
      Queue.put (x.1, (x.2 - 1)%Z) (task_queue s) = Some q →
      wstep behaviour w (WSubmit x) s
        (set_pc w (WFinally x false) (log (EvPut (x.1, (x.2 - 1)%Z)) (set_queue q s)))
  | ws_done s x q :
      Queue.task_done (task_queue s) = Some q →
      wstep behaviour w (WFinally x false) s
        (log (EvDone w x) (set_pc w WHead (set_queue q s)))
  | ws_done_die s x q :
      Queue.task_done (task_queue s) = Some q →
      wstep behaviour w (WFinally x true) s
        (log (EvDie w) (log (EvDone w x) (set_pc w WDied (set_queue q s))))
  | ws_value_error s x raising :
      Queue.task_done (task_queue s) = None →
      wstep behaviour w (WFinally x raising) s (log (EvDie w) (set_pc w WDied s)).

(** ** Scenarios *)

Definition always (o : outcome) : task → nat → outcome := λ _ _, o.

(** The scenario of C1: two workers, a task that always fails, submitted
    with [retries = 2]; the workers take turns until the queue is drained. *)
Definition retry_scenario : list action :=
  ASubmit 7 (Some 2%Z)
  :: replicate 6 (AWorker 0) ++ replicate 6 (AWorker 1)
  ++ replicate 5 (AWorker 0).

Definition retry_final : TaskQueue :=
  Eval vm_compute in
    default (init 0) (run (always Fails) retry_scenario (init 2)).

(** A worker that has just dequeued [(7, r)]. *)
Definition at_call (r : Z) : TaskQueue :=
  default (init 0)
    (run (always Fails) [ASubmit 7 (Some r); AWorker 0; AWorker 0] (init 1)).

(** Dequeue timeouts of worker [w] so far. *)
Definition timeouts (w : nat) (h : list event) : nat :=
  sum_list_with (λ e, match e with
                      | EvEmpty w' => if decide (w' = w) then 1 else 0
                      | _ => 0
                      end) h.

(** One worker, one task that succeeds; [shutdown] is called while the
    worker holds the item.  The trace ends when the worker is back at the
    head of its loop. *)
Definition exit_scenario : list action :=
  [ASubmit 7 None; AWorker 0; AWorker 0; AShutdown; AWorker 0; AWorker 0].

Definition exit_before : TaskQueue :=
  Eval vm_compute in
    default (init 0) (run (always Returns) exit_scenario (init 1)).

(** Times worker [w] dequeued item [x], and times it called [task_done]
    while holding [x]. *)
Definition gets (w : nat) (x : item) (h : list event) : nat :=
  sum_list_with (λ e, match e with
                      | EvGet w' x' => if decide (w' = w ∧ x' = x) then 1 else 0
                      | _ => 0
                      end) h.

Definition dones (w : nat) (x : item) (h : list event) : nat :=
  sum_list_with (λ e, match e with
                      | EvDone w' x' => if decide (w' = w ∧ x' = x) then 1 else 0
                      | _ => 0
                      end) h.

Definition hold (p : pc) (x : item) : nat :=
  if decide (held p = Some x) then 1 else 0.

(** Steps a worker is away from [task_done], at most. *)
Definition rank (p : pc) : nat :=
  match p with
  | WCall _ => 4
  | WExcept _ => 3
  | WSubmit _ => 2
  | WFinally _ _ => 1
  | _ => 0
  end.

(** Every dequeue of [x] by [w] is matched by one [task_done], but for the
    item [w] holds now. *)
Definition done_once (w : nat) (x : item) (s : TaskQueue) : Prop :=
  ∀ p, workers s !! w = Some p →
       gets w x (history s) = dones w x (history s) + hold p x.

(** The state after worker [w] called [task_done] for the item it held. *)
Definition finished (w : nat) (p : pc) (extra : list item)
    (evs : list event) (s : TaskQueue) : TaskQueue :=
  {| task_queue :=
       Queue.mk (Queue.maxsize (task_queue s))
         (Queue.queue (task_queue s) ++ extra)
         (Queue.unfinished_tasks (task_queue s) + Z.of_nat (length extra) - 1);
     workers := <[w := p]> (workers s);
     running := running s;
     history := history s ++ evs |}.

(** One worker and a task whose call raises [SystemExit]. *)
Definition sysexit_scenario : list action :=
  [ASubmit 7 None; AWorker 0; AWorker 0; AWorker 0; AWorker 0].

Definition dead_pool : TaskQueue :=
  Eval vm_compute in
    default (init 0) (run (always Exits) sysexit_scenario (init 1)).

(** Items put, dequeued, called and completed, in the order of the
    history; and the items a trace submits. *)
Definition puts (h : list event) : list item :=
  omap (λ e, match e with EvPut x => Some x | _ => None end) h.

Definition got (h : list event) : list item :=
  omap (λ e, match e with EvGet _ x => Some x | _ => None end) h.

Definition called (h : list event) : list item :=
  omap (λ e, match e with EvCall _ x _ => Some x | _ => None end) h.

Definition completed (h : list event) : list item :=
  omap (λ e, match e with EvDone _ x => Some x | _ => None end) h.

(** Tasks whose call returned, in that order. *)
Definition succeeded (h : list event) : list task :=
  omap (λ e, match e with EvCall _ x Returns => Some x.1 | _ => None end) h.

Definition submitted (tr : list action) : list item :=
  omap (λ a, match a with
             | ASubmit tk retries => Some (tk, default default_retries retries)
             | _ => None
             end) tr.

(** Items leave the queue in the order they entered it. *)
Definition fifo_ok (s : TaskQueue) : Prop :=
  got (history s) ++ Queue.queue (task_queue s) = puts (history s).

(** The item a worker is about to call. *)
Definition to_call (p : pc) : list item :=
  match p with
  | WCall x => [x]
  | _ => []
  end.

(** With one worker, calls and completions follow the dequeues. *)
Definition serial_ok (s : TaskQueue) : Prop :=
  ∃ p, workers s = [p] ∧
       completed (history s) ++ option_list (held p) = got (history s) ∧
       called (history s) ++ to_call p = got (history s).

(** A task each of whose calls returns. *)
Definition succeeds (behaviour : task → nat → outcome) (x : item) : Prop :=
  ∀ k, behaviour x.1 k = Returns.

(** No failure is being handled and none can come from what is queued. *)
Definition pc_calm (behaviour : task → nat → outcome) (p : pc) : Prop :=
  match p with
  | WCall x => succeeds behaviour x
  | WExcept _ | WSubmit _ => False
  | WFinally _ raising => raising = false
  | _ => True
  end.

Definition calm (behaviour : task → nat → outcome) (s : TaskQueue) : Prop :=
  Forall (succeeds behaviour) (Queue.queue (task_queue s)) ∧
  Forall (pc_calm behaviour) (workers s).

(** Task 1 fails once and then succeeds; every other task succeeds. *)
Definition flaky_once : task → nat → outcome :=
  λ tk k, if decide (tk = 1 ∧ k = 0) then Fails else Returns.

(** One worker; task 1 is submitted before task 2. *)
Definition overtaking_scenario : list action :=
  [ASubmit 1 (Some 1%Z); ASubmit 2 None] ++ replicate 15 (AWorker 0).

Definition overtaking_final : TaskQueue :=
  Eval vm_compute in
    default (init 0) (run flaky_once overtaking_scenario (init 1)).

(** One worker; task 1 is submitted before task 2, both succeed. *)
Definition in_order_scenario : list action :=
  [ASubmit 1 None; AWorker 0; ASubmit 2 (Some 0%Z)] ++ replicate 9 (AWorker 0).

Definition in_order_final : TaskQueue :=
  Eval vm_compute in
    default (init 0) (run (always Returns) in_order_scenario (init 1)).

(** The state after worker [w], handling the failure of item [x], printed
    the notice and resubmitted, and before it calls [task_done]. *)
Definition resubmitted (w : nat) (x : item) (s : TaskQueue) : TaskQueue :=
  {| task_queue :=
       Queue.mk (Queue.maxsize (task_queue s))
         (Queue.queue (task_queue s) ++ [(x.1, (x.2 - 1)%Z)])
         (Queue.unfinished_tasks (task_queue s) + 1);
     workers := <[w := WFinally x false]> (workers s);
     running := running s;
     history := history s ++
       [EvPrint w "Retrying task..."; EvPut (x.1, (x.2 - 1)%Z)] |}.

(** A worker that is handling the failure of [(7, 1)]. *)
Definition at_except : TaskQueue :=
  default (init 0)
    (run (always Fails) [ASubmit 7 (Some 1%Z); AWorker 0; AWorker 0; AWorker 0]
       (init 1)).

(** ** States up to the retries that are not positive

    [worker] only tests [retries > 0] and only decrements a positive
    [retries]; [norm_state] replaces every [retries] below zero by zero. *)
Definition norm_item (x : item) : item := (x.1, Z.max x.2 0).

Definition norm_pc (p : pc) : pc :=
  match p with
  | WCall x => WCall (norm_item x)
  | WExcept x => WExcept (norm_item x)
  | WSubmit x => WSubmit (norm_item x)
  | WFinally x raising => WFinally (norm_item x) raising
  | _ => p
  end.

Definition norm_event (e : event) : event :=
  match e with
  | EvPut x => EvPut (norm_item x)
  | EvGet w x => EvGet w (norm_item x)
  | EvCall w x o => EvCall w (norm_item x) o
  | EvDone w x => EvDone w (norm_item x)
  | _ => e
  end.

Definition norm_state (s : TaskQueue) : TaskQueue :=
  {| task_queue :=
       Queue.mk (Queue.maxsize (task_queue s))
         (norm_item <$> Queue.queue (task_queue s))
         (Queue.unfinished_tasks (task_queue s));
     workers := norm_pc <$> workers s;
     running := running s;
     history := norm_event <$> history s |}.

Definition norm_action (a : action) : action :=
  match a with
  | ASubmit tk retries =>
      ASubmit tk (Some (Z.max (default default_retries retries) 0))
  | _ => a
  end.

(** Two workers; the task fails every time and is submitted with a
    negative [retries], or with [retries = 0]. *)
Definition negative_scenario (r : Z) : list action :=
  [ASubmit 7 (Some r); AWorker 1; AWorker 0; AWorker 1; AWorker 1; AWorker 1;
   AWorker 1; AWorker 0].

Definition negative_final : TaskQueue :=
  Eval vm_compute in
    default (init 0) (run (always Fails) (negative_scenario (-4)) (init 2)).

Definition zero_final : TaskQueue :=
  Eval vm_compute in
    default (init 0) (run (always Fails) (negative_scenario 0) (init 2)).

(** ** The life of the pool: measures for the lemmas on [__init__] and
    [shutdown] *)

Global Instance action_eq_dec : EqDecision action.
Proof. solve_decision. Defined.

(** The thread of the worker is over. *)
Definition ended (p : pc) : bool :=
  match p with
  | WExited | WDied => true
  | _ => false
  end.

(** The worker is past a call that raised neither nothing nor an
    [Exception]: an exception is propagating, or has ended the thread. *)
Definition doomed (p : pc) : Prop :=
  match p with
  | WFinally _ true | WDied => True
  | _ => False
  end.

(** Dequeues of worker [w] so far, and the dequeue it may still do
    without testing the flag again. *)
Definition dequeues (w : nat) (h : list event) : nat :=
  sum_list_with (λ e, match e with
                      | EvGet w' _ => if decide (w' = w) then 1 else 0
                      | _ => 0
                      end) h.

Definition may_get (p : pc) : nat :=
  match p with
  | WGet => 1
  | _ => 0
  end.

(** Steps a worker needs at most to end once the flag is cleared. *)
Definition steps_to_end (p : pc) : nat :=
  match p with
  | WGet => 6
  | WCall _ => 5
  | WExcept _ => 4
  | WSubmit _ => 3
  | WFinally _ false => 2
  | WFinally _ true => 1
  | WHead => 1
  | WExited | WDied => 0
  end.

(** One worker takes an item and [shutdown] is called before the task
    returns; a second item stays behind. *)
Definition shutdown_scenario : list action :=
  [ASubmit 7 None; ASubmit 8 None; AWorker 0; AWorker 0; AShutdown].

Definition shutdown_state : TaskQueue :=
  Eval vm_compute in
    default (init 0) (run (always Returns) shutdown_scenario (init 1)).

(** ** Accounts of the pool *)

Definition calling (p : pc) : nat := length (to_call p).

Definition resubmitting (p : pc) : nat :=
  match p with
  | WSubmit _ => 1
  | _ => 0
  end.

(** Every dequeued item is called, and [task_done] is called for it, but
    for the items in the hands of the workers. *)
Definition ledger_ok (s : TaskQueue) : Prop :=
  length (got (history s))
  = length (called (history s)) + sum_list_with calling (workers s) ∧
  length (got (history s))
  = length (completed (history s)) + sum_list_with holding (workers s).

(** Notices an item can still cause. *)
Definition owed (x : item) : nat := Z.to_nat x.2.

Definition owed_pc (p : pc) : nat :=
  match p with
  | WCall x | WExcept x => owed x
  | WSubmit x => owed (x.1, (x.2 - 1)%Z)
  | _ => 0
  end.

(** Notices given up by a call that did not fail with an [Exception]. *)
Definition forgone (e : event) : nat :=
  match e with
  | EvCall _ x Fails => 0
  | EvCall _ x _ => owed x
  | _ => 0
  end.

Definition notice_potential (s : TaskQueue) : nat :=
  length (stdout (history s))
  + sum_list_with forgone (history s)
  + sum_list_with owed (Queue.queue (task_queue s))
  + sum_list_with owed_pc (workers s).

(** The example program at the end of the file: two workers, five
    submissions of [sample_task] (task 0, [retries] left out), here with
    one failure; the trace ends when [join] can return. *)
Definition main_scenario : list action :=
  replicate 5 (ASubmit 0 None)
  ++ [AWorker 0; AWorker 1; AWorker 0; AWorker 1]
  ++ replicate 4 (AWorker 0) ++ replicate 2 (AWorker 1)
  ++ replicate 4 (AWorker 0) ++ replicate 4 (AWorker 1)
  ++ replicate 4 (AWorker 0) ++ replicate 4 (AWorker 1).

(** The calls of [sample_task] in one run of the example: the first draw
    of [random.random()] is below 0.3, the later ones are not. *)
Definition sample_outcomes : task → nat → outcome :=
  λ _ k, if decide (k = 0) then Fails else Returns.

Definition main_final : TaskQueue :=
  Eval vm_compute in
    default (init 0) (run sample_outcomes main_scenario (init 2)).

(** ** The lines of descent of a task

    A submission starts a line: the item, then the item resubmitted for
    it, and so on.  A line is open while its item is queued or held for a
    call or a resubmission, and settled by its last call. *)
Definition line_item (tk : task) (x : item) : nat :=
  if decide (x.1 = tk) then 1 else 0.

Definition line_pc (tk : task) (p : pc) : nat :=
  match p with
  | WCall x | WSubmit x => line_item tk x
  | WExcept x => if bool_decide (0 < x.2)%Z then line_item tk x else 0
  | _ => 0
  end.

Definition settled (tk : task) (e : event) : nat :=
  match e with
  | EvCall _ x Fails => if bool_decide (0 < x.2)%Z then 0 else line_item tk x
  | EvCall _ x _ => line_item tk x
  | _ => 0
  end.

Definition lines (tk : task) (s : TaskQueue) : nat :=
  sum_list_with (settled tk) (history s)
  + sum_list_with (line_item tk) (Queue.queue (task_queue s))
  + sum_list_with (line_pc tk) (workers s).

(** Failed calls of a task so far. *)
Definition is_fail (tk : task) (e : event) : nat :=
  match e with
  | EvCall _ x Fails => line_item tk x
  | _ => 0
  end.

Definition fails (tk : task) (h : list event) : nat :=
  sum_list_with (is_fail tk) h.

(** A task that fails [k] times and succeeds from then on. *)
Definition fails_first (k : nat) : task → nat → outcome :=
  λ _ i, if decide (i < k) then Fails else Returns.

(** Two workers; the task fails twice and is submitted with
    [retries = 5]. *)
Definition recovery_scenario : list action :=
  ASubmit 7 (Some 5%Z)
  :: replicate 6 (AWorker 0) ++ replicate 6 (AWorker 1)
  ++ replicate 4 (AWorker 0).

Definition recovery_final : TaskQueue :=
  Eval vm_compute in
    default (init 0) (run (fails_first 2) recovery_scenario (init 2)).

(** Retries between 0 and [M]. *)
Definition in_range (M : Z) (x : item) : Prop := (0 ≤ x.2 ≤ M)%Z.

Definition pc_in_range (M : Z) (p : pc) : Prop :=
  match p with
  | WCall x | WExcept x | WFinally x _ => in_range M x
  | WSubmit x => (1 ≤ x.2 ≤ M)%Z
  | _ => True
  end.

(** The worker of [exit_scenario] after it left its loop. *)
Definition exited_scenario : list action := exit_scenario ++ [AWorker 0].

Definition exited_state : TaskQueue :=
  Eval vm_compute in
    default (init 0) (run (always Returns) exited_scenario (init 1)).

(** The states the scenarios of [shutdown] and of an ended or empty pool
    lead to. *)
Definition left_behind : TaskQueue :=
  Eval vm_compute in
    default (init 0)
      (run (always Returns) (replicate 3 (AWorker 0)) shutdown_state).

Definition piled_up : TaskQueue :=
  Eval vm_compute in
    default (init 0)
      (run (always Exits) [ASubmit 9 None; AShutdown] dead_pool).

Definition no_workers : TaskQueue :=
  Eval vm_compute in
    default (init 0)
      (run (always Returns) [ASubmit 1 None; ASubmit 2 (Some 0%Z)] (init (-1))).

Definition still_drained : TaskQueue :=
  Eval vm_compute in
    default (init 0)
      (run (always Fails) [AWorker 1; AWorker 1; AShutdown; AWorker 1]
         retry_final).

(** ** Lemmas on lists *)

Lemma sum_list_with_insert {A} (f : A → nat) (l : list A) i x y :
  l !! i = Some x →
  sum_list_with f (<[i := y]> l) + f x = sum_list_with f l + f y.
Proof.
  revert i; induction l as [|z l IH]; intros [|i] Hi; simplify_eq/=.
  - lia.
  - specialize (IH _ Hi). lia.
Qed.

Lemma sum_list_with_snoc {A} (f : A → nat) (l : list A) x :
  sum_list_with f (l ++ [x]) = sum_list_with f l + f x.
Proof. rewrite sum_list_with_app. simpl. lia. Qed.

Lemma sum_list_with_replicate_0 {A} (f : A → nat) n x :
  f x = 0 → sum_list_with f (replicate n x) = 0.
Proof. intros Hx. induction n as [|n IH]; simpl; lia. Qed.

Lemma worker_wstep behaviour w s s' :
  worker behaviour w s = Some s' ↔
  ∃ p, workers s !! w = Some p ∧ wstep behaviour w p s s'.
Proof.
  unfold worker. split.
  - destruct (workers s !! w) as [p|] eqn:Hp; simpl; [|done].
    intros H. exists p. split; [done|].
    destruct p as [| |x|x|x|x raising| |]; simpl in H.
    + destruct (running s) eqn:?; simplify_eq; by constructor.
    + unfold Queue.get in H.
      destruct (Queue.queue (task_queue s)) eqn:?; simplify_eq; by constructor.
    + destruct (behaviour x.1 (calls x.1 (history s))) eqn:?;
        simplify_eq; by constructor.
    + case_bool_decide; simplify_eq; constructor; lia.
    + unfold submit in H. simpl in H.
      destruct (Queue.put _ _) eqn:?; simplify_eq/=. by constructor.
    + destruct (Queue.task_done _) eqn:?; [destruct raising|];
        simplify_eq; by constructor.
    + done.
    + done.
  - intros (p & Hp & Hs). rewrite Hp. simpl.
    destruct Hs; simpl; unfold Queue.get, submit; simpl;
      repeat match goal with
             | H : _ = _ |- _ => rewrite H
             end; simpl;
      rewrite ?bool_decide_eq_true_2, ?bool_decide_eq_false_2 by lia;
      try done.
Qed.

Lemma put_unbounded x q :
  Queue.maxsize q = 0%Z →
  Queue.put x q = Some (Queue.mk 0 (Queue.queue q ++ [x])
                          (Queue.unfinished_tasks q + 1)).
Proof. intros Hm. unfold Queue.put. rewrite Hm. done. Qed.

Lemma put_Some x q q' :
  Queue.put x q = Some q' →
  q' = Queue.mk (Queue.maxsize q) (Queue.queue q ++ [x])
         (Queue.unfinished_tasks q + 1).
Proof. unfold Queue.put. case_match; naive_solver. Qed.

Lemma task_done_Some q q' :
  Queue.task_done q = Some q' →
  (1 ≤ Queue.unfinished_tasks q)%Z ∧
  q' = Queue.mk (Queue.maxsize q) (Queue.queue q)
         (Queue.unfinished_tasks q - 1).
Proof.
  unfold Queue.task_done. simpl. case_bool_decide; [done|].
  intros [= <-]. split; [lia|done].
Qed.

Lemma task_done_None q :
  Queue.task_done q = None → (Queue.unfinished_tasks q < 1)%Z.
Proof. unfold Queue.task_done. simpl. case_bool_decide; [lia|done]. Qed.

(** Replaces a sum over the workers after one moved by the sum before. *)
Ltac sum_insert :=
  repeat match goal with
  | Hp : ?l !! ?i = Some ?x |- context [sum_list_with ?f (<[?i := ?y]> ?l)] =>
      let E := fresh "E" in
      pose proof (sum_list_with_insert f l i x y Hp) as E;
      let v := fresh "v" in
      set (v := sum_list_with f (<[i := y]> l)) in *;
      clearbody v
  end.

Ltac queue_ops :=
  repeat match goal with
  | H : Queue.put _ _ = Some _ |- _ => apply put_Some in H; subst
  | H : Queue.task_done _ = Some _ |- _ =>
      apply task_done_Some in H; destruct H as [? ->]
  | H : Queue.task_done _ = None |- _ => apply task_done_None in H
  end.

Section Budget.

Variable behaviour : task → nat → outcome.
Implicit Types (s : TaskQueue) (tk : task) (tr : list action).

(** The potential of a task changes only by what callers submit. *)
Lemma step_potential tk a s s' :
  step behaviour a s = Some s' →
  potential tk s' = potential tk s + action_budget tk a.
Proof.
  destruct a as [tk' r| |w]; simpl.
  - unfold submit. simpl. intros H.
    destruct (Queue.put _ _) eqn:Hput; simplify_eq/=. queue_ops.
    unfold potential, calls. simpl.
    rewrite !sum_list_with_snoc. simpl. lia.
  - intros [= <-]. unfold potential. simpl. lia.
  - intros (p & Hp & Hs)%worker_wstep.
    destruct Hs; queue_ops; unfold potential, calls; simpl;
      rewrite ?sum_list_with_snoc, ?sum_list_with_app; simpl;
      sum_insert; simpl in *;
      repeat match goal with
             | H : Queue.queue _ = _ |- _ => rewrite H
             end; simpl;
      unfold item_budget, budget in *; simpl in *;
      repeat case_decide; try lia.
Qed.

Lemma run_potential tk tr s s' :
  run behaviour tr s = Some s' →
  potential tk s' = potential tk s + trace_budget tk tr.
Proof.
  revert s. induction tr as [|a tr IH]; intros s; simpl.
  - intros [= <-]. unfold trace_budget. simpl. lia.
  - destruct (step behaviour a s) as [s1|] eqn:Hstep; simpl; [|done].
    intros Hrun. apply IH in Hrun. apply (step_potential tk) in Hstep.
    unfold trace_budget in *. simpl. lia.
Qed.

(** A task whose every call fails forfeits nothing. *)
Lemma step_forfeit tk a s s' :
  (∀ k, behaviour tk k = Fails) →
  step behaviour a s = Some s' →
  sum_list_with (forfeit tk) (history s')
  = sum_list_with (forfeit tk) (history s).
Proof.
  intros Hfail. destruct a as [tk' r| |w]; simpl.
  - unfold submit. simpl. intros H.
    destruct (Queue.put _ _); simplify_eq/=.
    rewrite sum_list_with_snoc. simpl. lia.
  - by intros [= <-].
  - intros (p & Hp & Hs)%worker_wstep.
    destruct Hs; simpl; rewrite ?sum_list_with_snoc; simpl; try lia.
    + case_decide; [|lia]. subst. rewrite Hfail in *. done.
    + case_decide; [|lia]. subst. rewrite Hfail in *. done.
Qed.

Lemma run_forfeit tk tr s s' :
  (∀ k, behaviour tk k = Fails) →
  run behaviour tr s = Some s' →
  sum_list_with (forfeit tk) (history s')
  = sum_list_with (forfeit tk) (history s).
Proof.
  intros Hfail. revert s. induction tr as [|a tr IH]; intros s; simpl.
  - by intros [= <-].
  - destruct (step behaviour a s) as [s1|] eqn:Hstep; simpl; [|done].
    intros Hrun. rewrite (IH _ Hrun). by eapply step_forfeit.
Qed.

(** The history only grows. *)
Lemma step_history a s s' :
  step behaviour a s = Some s' → ∃ evs, history s' = history s ++ evs.
Proof.
  destruct a as [tk' r| |w]; simpl.
  - unfold submit. simpl. intros H.
    destruct (Queue.put _ _); simplify_eq/=. by eexists.
  - intros [= <-]. exists []. by rewrite app_nil_r.
  - intros (p & Hp & Hs)%worker_wstep.
    destruct Hs; simpl; rewrite <- ?app_assoc;
      try (by eexists); exists []; by rewrite app_nil_r.
Qed.

Lemma run_history tr s s' :
  run behaviour tr s = Some s' → ∃ evs, history s' = history s ++ evs.
Proof.
  revert s. induction tr as [|a tr IH]; intros s; simpl.
  - intros [= <-]. exists []. by rewrite app_nil_r.
  - destruct (step behaviour a s) as [s1|] eqn:Hstep; simpl; [|done].
    intros (evs2 & ->)%IH. apply step_history in Hstep as (evs1 & ->).
    exists (evs1 ++ evs2). by rewrite app_assoc.
Qed.

Lemma run_calls_mono tk tr s s' :
  run behaviour tr s = Some s' →
  calls tk (history s) ≤ calls tk (history s').
Proof.
  intros (evs & ->)%run_history. unfold calls.
  rewrite sum_list_with_app. lia.
Qed.

(** The counter invariant holds initially and is kept by every step. *)
Lemma init_counter_ok n : counter_ok (init n).
Proof.
  split; [done|]. simpl.
  by rewrite sum_list_with_replicate_0.
Qed.

Lemma step_counter_ok a s s' :
  step behaviour a s = Some s' → counter_ok s → counter_ok s'.
Proof.
  unfold counter_ok. intros Hstep [Hmax Hcnt].
  destruct a as [tk' r| |w]; simpl in Hstep.
  - unfold submit in Hstep. simpl in Hstep.
    destruct (Queue.put _ _) eqn:Hput; simplify_eq/=. queue_ops. simpl.
    rewrite length_app. simpl. split; [done|lia].
  - by simplify_eq/=.
  - apply worker_wstep in Hstep as (p & Hp & Hs).
    destruct Hs; queue_ops; simpl in *; sum_insert; simpl in *;
      repeat match goal with
             | H : Queue.queue _ = _ |- _ => rewrite H in *
             end; simpl in *;
      rewrite ?length_app; unfold holding in *; simpl in *;
      (split; [done|lia]).
Qed.

Lemma run_counter_ok tr s s' :
  run behaviour tr s = Some s' → counter_ok s → counter_ok s'.
Proof.
  revert s. induction tr as [|a tr IH]; intros s; simpl.
  - by intros [= <-].
  - destruct (step behaviour a s) as [s1|] eqn:Hstep; simpl; [|done].
    intros Hrun Hs. eapply IH; [done|]. by eapply step_counter_ok.
Qed.

End Budget.

Lemma sum_list_with_0 {A} (f : A → nat) (l : list A) :
  sum_list_with f l = 0 ↔ Forall (λ x, f x = 0) l.
Proof.
  induction l as [|x l IH]; simpl.
  - split; [constructor|done].
  - rewrite Forall_cons, <- IH. lia.
Qed.

Lemma trace_budget_submissions tk tr :
  trace_budget tk tr = sum_list_with budget (submissions tk tr).
Proof.
  unfold trace_budget, submissions.
  induction tr as [|[tk' r| |w] tr IH]; simpl; try done.
  unfold item_budget. simpl.
  case_decide; simpl; [unfold budget; do 2 f_equal|]; exact IH.
Qed.

Lemma potential_init tk n : potential tk (init n) = 0.
Proof.
  unfold potential, calls. simpl.
  by rewrite sum_list_with_replicate_0.
Qed.

(** When [join] can return, nothing is queued and no worker holds an item. *)
Lemma drained s :
  counter_ok s →
  Queue.join_returns (task_queue s) = true →
  Queue.queue (task_queue s) = [] ∧ Forall (λ p, held p = None) (workers s).
Proof.
  intros [_ Hcnt] Hjoin. unfold Queue.join_returns in Hjoin.
  apply bool_decide_eq_true in Hjoin. rewrite Hjoin in Hcnt.
  assert (length (Queue.queue (task_queue s)) = 0) as Hlen by lia.
  assert (sum_list_with holding (workers s) = 0) as Hsum by lia.
  split; [by apply nil_length_inv|].
  apply sum_list_with_0 in Hsum. eapply Forall_impl; [exact Hsum|].
  intros p. unfold holding. by destruct (held p).
Qed.

Lemma drained_potential tk s :
  counter_ok s →
  Queue.join_returns (task_queue s) = true →
  potential tk s
  = calls tk (history s) + sum_list_with (forfeit tk) (history s).
Proof.
  intros Hok Hjoin. destruct (drained s Hok Hjoin) as [Hq Hw].
  unfold potential. rewrite Hq. simpl.
  assert (sum_list_with (pc_budget tk) (workers s) = 0) as ->; [|lia].
  apply sum_list_with_0. eapply Forall_impl; [exact Hw|].
  by intros [| |x|x|x|x b| |].
Qed.

Lemma potential_queue tk s r :
  (tk, r) ∈ Queue.queue (task_queue s) → calls tk (history s) < potential tk s.
Proof.
  intros Hin. unfold potential.
  apply (sum_list_with_in _ (item_budget tk)) in Hin.
  unfold item_budget at 1 in Hin. simpl in Hin.
  rewrite decide_True in Hin by done. unfold budget in Hin. lia.
Qed.

Section RetryBound.

Variable behaviour : task → nat → outcome.

(** C1.  In every run of the pool the calls of a task are bounded by the
    budgets of its submissions, [retries + 1] each.  So a task submitted
    once, with a retry budget [R ≥ 0], is called at most [R + 1] times.  If
    each of its calls fails, then whenever [join] can return it has been
    called exactly [R + 1] times, and from then on (no new submission of
    it) it is never called again and never again in the queue: it was
    dropped. *)
Theorem retry_bound (n : Z) (tr : list action) (s : TaskQueue)
    (tk : task) (R : Z) :
  run behaviour tr (init n) = Some s →
  calls tk (history s) ≤ sum_list_with budget (submissions tk tr) ∧
  ((0 ≤ R)%Z →
   submissions tk tr = [R] →
   (Z.of_nat (calls tk (history s)) ≤ R + 1)%Z ∧
   ((∀ k, behaviour tk k = Fails) →
    Queue.join_returns (task_queue s) = true →
    (Z.of_nat (calls tk (history s)) = R + 1)%Z ∧
    ∀ tr' s',
      submissions tk tr' = [] →
      run behaviour tr' s = Some s' →
      calls tk (history s') = calls tk (history s) ∧
      ∀ r, (tk, r) ∉ Queue.queue (task_queue s'))).
Proof.
  intros Hrun.
  pose proof (run_potential behaviour tk _ _ _ Hrun) as Hpot.
  rewrite potential_init, trace_budget_submissions in Hpot.
  split; [unfold potential in Hpot; lia|].
  intros HR Hsub. rewrite Hsub in Hpot.
  simpl in Hpot. unfold budget in Hpot.
  split.
  - unfold potential in Hpot. lia.
  - intros Hfail Hjoin.
    assert (counter_ok s) as Hok.
    { eapply run_counter_ok; [done|]. apply init_counter_ok. }
    rewrite (drained_potential tk s Hok Hjoin) in Hpot.
    pose proof (run_forfeit behaviour tk _ _ _ Hfail Hrun) as Hff.
    simpl in Hff. rewrite Hff in Hpot.
    split; [lia|].
    intros tr' s' Hsub' Hrun'.
    pose proof (run_potential behaviour tk _ _ _ Hrun') as Hpot'.
    rewrite trace_budget_submissions, Hsub' in Hpot'.
    rewrite (drained_potential tk s Hok Hjoin), Hff in Hpot'.
    simpl in Hpot'.
    pose proof (run_calls_mono behaviour tk _ _ _ Hrun') as Hmono.
    assert (calls tk (history s') ≤ potential tk s') as Hle.
    { unfold potential. lia. }
    split; [lia|].
    intros r Hin%potential_queue. lia.
Qed.

End RetryBound.

Lemma retry_bound_witness :
  run (always Fails) retry_scenario (init 2) = Some retry_final ∧
  Queue.join_returns (task_queue retry_final) = true ∧
  calls 7 (history retry_final) = 3 ∧
  stdout (history retry_final) = ["Retrying task..."; "Retrying task..."] ∧
  ∀ s', run (always Fails) (replicate 4 (AWorker 1)) retry_final = Some s' →
        calls 7 (history s') = 3 ∧
        (7, 0%Z) ∉ Queue.queue (task_queue s').
Proof.
  assert (run (always Fails) retry_scenario (init 2) = Some retry_final)
    as Hrun by (vm_compute; reflexivity).
  assert (submissions 7 retry_scenario = [2%Z]) as Hsub by reflexivity.
  assert (Queue.join_returns (task_queue retry_final) = true)
    as Hjoin by reflexivity.
  destruct (retry_bound (always Fails) 2 retry_scenario retry_final 7 2
              Hrun) as [_ H].
  destruct (H ltac:(lia) Hsub) as [_ H'].
  destruct (H' (λ _, eq_refl) Hjoin) as [H3 Hlater].
  split; [exact Hrun|]. split; [exact Hjoin|].
  split; [lia|]. split; [reflexivity|].
  intros s' Hrun'.
  destruct (Hlater (replicate 4 (AWorker 1)) s' eq_refl Hrun') as [Hc Hq].
  split; [lia|apply Hq].
Defined.

Lemma lookup_set_pc w p p' s :
  workers s !! w = Some p → workers (set_pc w p' s) !! w = Some p'.
Proof.
  intros Hp. simpl. apply list_lookup_insert_eq. by eapply lookup_lt_Some.
Qed.

Lemma lookup_set_pc_ne w w' p' s :
  w ≠ w' → workers (set_pc w p' s) !! w' = workers s !! w'.
Proof. intros Hne. simpl. by apply list_lookup_insert_ne. Qed.

Lemma held_counter w p x s :
  counter_ok s → workers s !! w = Some p → held p = Some x →
  (1 ≤ Queue.unfinished_tasks (task_queue s))%Z.
Proof.
  intros [_ Hcnt] Hp Hx.
  pose proof (sum_list_with_in _ holding _ (list_elem_of_lookup_2 _ _ _ Hp)) as Hle.
  unfold holding at 1 in Hle. rewrite Hx in Hle. lia.
Qed.

Lemma task_done_held w p x s :
  counter_ok s → workers s !! w = Some p → held p = Some x →
  Queue.task_done (task_queue s)
  = Some (Queue.mk (Queue.maxsize (task_queue s)) (Queue.queue (task_queue s))
            (Queue.unfinished_tasks (task_queue s) - 1)).
Proof.
  intros Hok Hp Hx. pose proof (held_counter _ _ _ _ Hok Hp Hx).
  unfold Queue.task_done. simpl. by rewrite bool_decide_eq_false_2 by lia.
Qed.

Section Paths.

Variable behaviour : task → nat → outcome.

(** The step of a worker is the one of its program point. *)
Lemma worker_at w p s s' :
  workers s !! w = Some p →
  wstep behaviour w p s s' →
  worker behaviour w s = Some s'.
Proof. intros Hp Hs. apply worker_wstep. eauto. Qed.

Lemma state_eq (s1 s2 : TaskQueue) :
  Queue.maxsize (task_queue s1) = Queue.maxsize (task_queue s2) →
  Queue.queue (task_queue s1) = Queue.queue (task_queue s2) →
  Queue.unfinished_tasks (task_queue s1)
  = Queue.unfinished_tasks (task_queue s2) →
  workers s1 = workers s2 →
  running s1 = running s2 →
  history s1 = history s2 →
  s1 = s2.
Proof.
  destruct s1 as [[m1 q1 u1] ws1 r1 h1], s2 as [[m2 q2 u2] ws2 r2 h2].
  simpl. by intros -> -> -> -> -> ->.
Qed.

Ltac next_step c :=
  erewrite worker_at;
  [|simpl; rewrite ?list_insert_insert_eq;
    first [eassumption
          |apply list_lookup_insert_eq; by eapply lookup_lt_Some]
   |c]; simpl.

Ltac same_state :=
  f_equal; apply state_eq; simpl;
  rewrite ?list_insert_insert_eq, <- ?app_assoc, ?app_nil_r;
  first [done|lia].

Ltac call_task_done :=
  simpl; unfold Queue.task_done; simpl;
  rewrite bool_decide_eq_false_2 by lia; reflexivity.

(** The call fails and retries are left: print, resubmit, [task_done]. *)
Lemma run_fail_retry w s x :
  counter_ok s →
  workers s !! w = Some (WCall x) →
  behaviour x.1 (calls x.1 (history s)) = Fails →
  (0 < x.2)%Z →
  run behaviour (replicate 4 (AWorker w)) s
  = Some (finished w WHead [(x.1, (x.2 - 1)%Z)]
            [EvCall w x Fails; EvPrint w "Retrying task...";
             EvPut (x.1, (x.2 - 1)%Z); EvDone w x] s).
Proof.
  intros Hok Hp Hfail Hr.
  pose proof (held_counter _ _ x _ Hok Hp eq_refl) as Hcnt.
  destruct Hok as [Hmax _]. simpl.
  next_step ltac:(by apply ws_fail).
  next_step ltac:(by apply ws_retry).
  next_step ltac:(apply ws_resubmit; by apply put_unbounded).
  next_step ltac:(apply ws_done; call_task_done).
  same_state.
Qed.

(** The call fails and no retry is left: [task_done] only. *)
Lemma run_fail_drop w s x :
  counter_ok s →
  workers s !! w = Some (WCall x) →
  behaviour x.1 (calls x.1 (history s)) = Fails →
  (x.2 ≤ 0)%Z →
  run behaviour (replicate 3 (AWorker w)) s
  = Some (finished w WHead [] [EvCall w x Fails; EvDone w x] s).
Proof.
  intros Hok Hp Hfail Hr.
  pose proof (held_counter _ _ x _ Hok Hp eq_refl) as Hcnt.
  destruct Hok as [Hmax _]. simpl.
  next_step ltac:(by apply ws_fail).
  next_step ltac:(by apply ws_drop).
  next_step ltac:(apply ws_done; call_task_done).
  same_state.
Qed.

(** The call returns: [task_done] only. *)
Lemma run_return w s x :
  counter_ok s →
  workers s !! w = Some (WCall x) →
  behaviour x.1 (calls x.1 (history s)) = Returns →
  run behaviour (replicate 2 (AWorker w)) s
  = Some (finished w WHead [] [EvCall w x Returns; EvDone w x] s).
Proof.
  intros Hok Hp Hret.
  pose proof (held_counter _ _ x _ Hok Hp eq_refl) as Hcnt.
  destruct Hok as [Hmax _]. simpl.
  next_step ltac:(by apply ws_return).
  next_step ltac:(apply ws_done; call_task_done).
  same_state.
Qed.

(** The call raises past the handler: [task_done], then the thread ends. *)
Lemma run_sysexit w s x :
  counter_ok s →
  workers s !! w = Some (WCall x) →
  behaviour x.1 (calls x.1 (history s)) = Exits →
  run behaviour (replicate 2 (AWorker w)) s
  = Some (finished w WDied [] [EvCall w x Exits; EvDone w x; EvDie w] s).
Proof.
  intros Hok Hp Hret.
  pose proof (held_counter _ _ x _ Hok Hp eq_refl) as Hcnt.
  destruct Hok as [Hmax _]. simpl.
  next_step ltac:(by apply ws_sysexit).
  next_step ltac:(apply ws_done_die; call_task_done).
  same_state.
Qed.

(** At the head of the loop with the flag set, the worker polls. *)
Lemma head_polls w s :
  workers s !! w = Some WHead → running s = true →
  worker behaviour w s = Some (set_pc w WGet s).
Proof. intros Hp Hr. eapply worker_at; [done|by apply ws_enter]. Qed.

Lemma lookup_finished w p p' extra evs s :
  workers s !! w = Some p →
  workers (finished w p' extra evs s) !! w = Some p'.
Proof.
  intros Hp. simpl. apply list_lookup_insert_eq. by eapply lookup_lt_Some.
Qed.

(** C2.  A worker that holds [(tk, r)] and whose call [tk()] fails: with
    [r > 0] it prints the notice, puts [(tk, r - 1)] at the tail of the
    queue, calls [task_done] and is back at the head of its loop; with
    [r = 0] it only calls [task_done]: nothing is queued, nothing is
    printed and the flag is untouched. *)
Theorem failure_path (w : nat) (s : TaskQueue) (tk : task) (r : Z) :
  counter_ok s →
  workers s !! w = Some (WCall (tk, r)) →
  behaviour tk (calls tk (history s)) = Fails →
  ((0 < r)%Z →
   ∃ s', run behaviour (replicate 4 (AWorker w)) s = Some s' ∧
         Queue.queue (task_queue s')
         = Queue.queue (task_queue s) ++ [(tk, (r - 1)%Z)] ∧
         stdout (history s') = stdout (history s) ++ ["Retrying task..."] ∧
         history s' = history s ++
           [EvCall w (tk, r) Fails; EvPrint w "Retrying task...";
            EvPut (tk, (r - 1)%Z); EvDone w (tk, r)] ∧
         workers s' !! w = Some WHead) ∧
  (r = 0%Z →
   ∃ s', run behaviour (replicate 3 (AWorker w)) s = Some s' ∧
         Queue.queue (task_queue s') = Queue.queue (task_queue s) ∧
         stdout (history s') = stdout (history s) ∧
         history s' = history s ++
           [EvCall w (tk, r) Fails; EvDone w (tk, r)] ∧
         running s' = running s ∧
         workers s' !! w = Some WHead).
Proof.
  intros Hok Hp Hfail. split; intros Hr.
  - eexists. split; [by apply (run_fail_retry w s (tk, r))|].
    split; [done|]. split; [|split; [done|by eapply lookup_finished]].
    simpl. unfold stdout. by rewrite omap_app.
  - eexists. split; [apply (run_fail_drop w s (tk, r)); simpl; [done..|lia]|].
    split; [simpl; by rewrite app_nil_r|].
    split; [|split; [done|split; [done|by eapply lookup_finished]]].
    simpl. unfold stdout. rewrite omap_app. simpl. by rewrite app_nil_r.
Qed.

(** C5, as the code has it.  A worker that holds [(tk, r)] and whose
    call [tk()] returns: whatever [r] is, nothing is put on the queue and
    nothing is printed; the worker calls [task_done] and is back at the
    head of its loop.  There it polls again if the flag is still set, and
    leaves the loop if [shutdown] cleared it. *)
Theorem success_path (w : nat) (s : TaskQueue) (tk : task) (r : Z) :
  counter_ok s →
  workers s !! w = Some (WCall (tk, r)) →
  behaviour tk (calls tk (history s)) = Returns →
  ∃ s', run behaviour (replicate 2 (AWorker w)) s = Some s' ∧
        Queue.queue (task_queue s') = Queue.queue (task_queue s) ∧
        Queue.unfinished_tasks (task_queue s')
        = (Queue.unfinished_tasks (task_queue s) - 1)%Z ∧
        history s' = history s ++
          [EvCall w (tk, r) Returns; EvDone w (tk, r)] ∧
        workers s' !! w = Some WHead ∧
        running s' = running s ∧
        ∃ s'', step behaviour (AWorker w) s' = Some s'' ∧
               workers s'' !! w
               = Some (if running s' then WGet else WExited).
Proof.
  intros Hok Hp Hret.
  eexists. split; [by apply (run_return w s (tk, r))|].
  split; [simpl; by rewrite app_nil_r|]. split; [simpl; lia|].
  split; [done|]. split; [by eapply lookup_finished|]. split; [done|].
  pose proof (lookup_finished w _ WHead [] 
                [EvCall w (tk, r) Returns; EvDone w (tk, r)] s Hp) as Hhead.
  destruct (running (finished w WHead [] _ s)) eqn:Hrun.
  - eexists. split.
    + simpl. by apply head_polls.
    + by eapply lookup_set_pc.
  - eexists. split.
    + simpl. eapply worker_at; [done|]. by apply ws_exit.
    + simpl. apply list_lookup_insert_eq. by eapply lookup_lt_Some.
Qed.

(** C6, as the code has it.  When the call raises an exception that is an
    instance of [Exception], the worker handles it: within four of its
    steps it is back at the head of its loop, no other worker has moved,
    the flag is as it was, a caller's [submit] returns normally as before,
    and while the flag is set the worker polls again. *)
Theorem exception_recovered (w : nat) (s : TaskQueue) (tk : task) (r : Z) :
  counter_ok s →
  workers s !! w = Some (WCall (tk, r)) →
  behaviour tk (calls tk (history s)) = Fails →
  ∃ j s', j ≤ 4 ∧
          run behaviour (replicate j (AWorker w)) s = Some s' ∧
          workers s' = <[w := WHead]> (workers s) ∧
          running s' = running s ∧
          (∀ tk' retries, is_Some (submit tk' retries s')) ∧
          (running s = true →
           ∃ s'', step behaviour (AWorker w) s' = Some s'' ∧
                  workers s'' !! w = Some WGet).
Proof.
  intros Hok Hp Hfail.
  assert (∀ extra evs tk' retries,
    is_Some (submit tk' retries (finished w WHead extra evs s))) as Hsub.
  { intros extra evs tk' retries. unfold submit.
    rewrite put_unbounded by apply Hok. by eexists. }
  assert (∀ extra evs,
    running (finished w WHead extra evs s) = true →
    ∃ s'', step behaviour (AWorker w) (finished w WHead extra evs s)
           = Some s'' ∧ workers s'' !! w = Some WGet) as Hpoll.
  { intros extra evs Hrun. eexists. split.
    - simpl. apply head_polls; [by eapply lookup_finished|done].
    - eapply lookup_set_pc. by eapply lookup_finished. }
  destruct (decide (0 < r)%Z) as [Hr|Hr].
  - exists 4. eexists. split; [lia|].
    split; [by apply (run_fail_retry w s (tk, r))|].
    split; [done|]. split; [done|]. split; [apply Hsub|]. apply Hpoll.
  - exists 3. eexists. split; [lia|].
    split; [apply (run_fail_drop w s (tk, r)); simpl; [done..|lia]|].
    split; [done|]. split; [done|]. split; [apply Hsub|]. apply Hpoll.
Qed.

Lemma run_resubmit w s x :
  counter_ok s →
  workers s !! w = Some (WExcept x) →
  (0 < x.2)%Z →
  run behaviour (replicate 2 (AWorker w)) s = Some (resubmitted w x s) ∧
  worker behaviour w (resubmitted w x s)
  = Some (finished w WHead [(x.1, (x.2 - 1)%Z)]
            [EvPrint w "Retrying task..."; EvPut (x.1, (x.2 - 1)%Z);
             EvDone w x] s).
Proof.
  intros Hok Hp Hr.
  pose proof (held_counter _ _ x _ Hok Hp eq_refl) as Hcnt.
  destruct Hok as [Hmax _]. split.
  - simpl.
    next_step ltac:(by apply ws_retry).
    next_step ltac:(apply ws_resubmit; by apply put_unbounded).
    same_state.
  - next_step ltac:(apply ws_done; call_task_done).
    same_state.
Qed.

(** C8.  In every state the pool reaches, [submit(task, retries)] returns
    at once and normally: it puts [(task, retries)], with [retries = 3]
    when the argument is left out, at the tail of the queue, whose bound
    is 0 (none), counts one more unfinished task and touches nothing
    else. *)
Theorem submit_never_blocks (n : Z) (tr : list action) (s : TaskQueue)
    (tk : task) (retries : option Z) :
  run behaviour tr (init n) = Some s →
  Queue.maxsize (task_queue s) = 0%Z ∧
  submit tk None s = submit tk (Some 3%Z) s ∧
  ∃ s', submit tk retries s = Some s' ∧
        Queue.queue (task_queue s')
        = Queue.queue (task_queue s) ++ [(tk, default 3%Z retries)] ∧
        Queue.unfinished_tasks (task_queue s')
        = (Queue.unfinished_tasks (task_queue s) + 1)%Z ∧
        workers s' = workers s ∧
        running s' = running s ∧
        history s' = history s ++ [EvPut (tk, default 3%Z retries)].
Proof.
  intros Hrun.
  assert (counter_ok s) as [Hmax _].
  { eapply run_counter_ok; [done|]. apply init_counter_ok. }
  split; [done|]. split; [done|].
  unfold submit. rewrite put_unbounded by done. simpl.
  eexists. split; [done|]. done.
Qed.

(** C9.  A worker handling a failure with [retries > 0] puts the
    successor on the queue, which counts one more unfinished task, and
    only then calls [task_done] for the item it holds.  In every state
    the pool reaches, a worker that holds an item keeps the count above
    zero, and when [join] can return the queue is empty and no worker
    holds an item: no retry is queued, about to be queued or running. *)
Theorem resubmit_before_done (n : Z) (tr : list action) (s : TaskQueue) :
  run behaviour tr (init n) = Some s →
  (∀ w x,
     workers s !! w = Some (WExcept x) → (0 < x.2)%Z →
     ∃ s2 s3,
       run behaviour (replicate 2 (AWorker w)) s = Some s2 ∧
       step behaviour (AWorker w) s2 = Some s3 ∧
       history s2 = history s ++
         [EvPrint w "Retrying task..."; EvPut (x.1, (x.2 - 1)%Z)] ∧
       Queue.unfinished_tasks (task_queue s2)
       = (Queue.unfinished_tasks (task_queue s) + 1)%Z ∧
       workers s2 !! w = Some (WFinally x false) ∧
       history s3 = history s2 ++ [EvDone w x] ∧
       Queue.unfinished_tasks (task_queue s3)
       = Queue.unfinished_tasks (task_queue s)) ∧
  (∀ w p x,
     workers s !! w = Some p → held p = Some x →
     (1 ≤ Queue.unfinished_tasks (task_queue s))%Z) ∧
  (Queue.join_returns (task_queue s) = true →
   Queue.queue (task_queue s) = [] ∧
   ∀ w p, workers s !! w = Some p → held p = None).
Proof.
  intros Hrun.
  assert (counter_ok s) as Hok.
  { eapply run_counter_ok; [done|]. apply init_counter_ok. }
  split; [|split].
  - intros w x Hp Hr.
    destruct (run_resubmit w s x Hok Hp Hr) as [H2 H3].
    eexists _, _. split; [exact H2|]. split; [exact H3|].
    split; [done|]. split; [done|].
    split; [simpl; apply list_lookup_insert_eq; by eapply lookup_lt_Some|].
    split; [simpl; by rewrite <- app_assoc|]. simpl. lia.
  - intros w p x Hp Hx. by eapply held_counter.
  - intros Hjoin. destruct (drained s Hok Hjoin) as [Hq Hall].
    split; [done|]. intros w p Hp.
    by apply (Forall_lookup_1 _ _ _ _ Hall Hp).
Qed.

End Paths.

Lemma failure_path_witness :
  (∃ s', run (always Fails) (replicate 4 (AWorker 0)) (at_call 1) = Some s' ∧
         Queue.queue (task_queue s') = [(7, 0%Z)] ∧
         stdout (history s') = ["Retrying task..."]) ∧
  (∃ s', run (always Fails) (replicate 3 (AWorker 0)) (at_call 0) = Some s' ∧
         Queue.queue (task_queue s') = [] ∧
         stdout (history s') = []).
Proof.
  split.
  - destruct (failure_path (always Fails) 0 (at_call 1) 7 1) as [H _].
    + split; reflexivity.
    + reflexivity.
    + reflexivity.
    + destruct (H ltac:(lia)) as (s' & Hrun & Hq & Hout & _).
      exists s'. by repeat split.
  - destruct (failure_path (always Fails) 0 (at_call 0) 7 0) as [_ H].
    + split; reflexivity.
    + reflexivity.
    + reflexivity.
    + destruct (H eq_refl) as (s' & Hrun & Hq & Hout & _).
      exists s'. by repeat split.
Defined.

Lemma success_path_witness :
  ∃ s', run (always Returns) (replicate 2 (AWorker 0)) (at_call 5) = Some s' ∧
        Queue.queue (task_queue s') = [] ∧
        Queue.unfinished_tasks (task_queue s') = 0%Z ∧
        workers s' !! 0 = Some WHead.
Proof.
  destruct (success_path (always Returns) 0 (at_call 5) 7 5)
    as (s' & Hrun & Hq & Hu & _ & Hp & _).
  - split; reflexivity.
  - reflexivity.
  - reflexivity.
  - exists s'. by repeat split.
Defined.

Lemma exception_recovered_witness :
  ∃ j s', j ≤ 4 ∧
          run (always Fails) (replicate j (AWorker 0)) (at_call 1) = Some s' ∧
          workers s' = [WHead] ∧ running s' = true.
Proof.
  destruct (exception_recovered (always Fails) 0 (at_call 1) 7 1)
    as (j & s' & Hj & Hrun & Hw & Hr & _).
  - split; reflexivity.
  - reflexivity.
  - reflexivity.
  - exists j, s'. by repeat split.
Defined.

(** C6, as stated, fails: a call that raises [SystemExit] ends the only
    worker of a pool whose flag is still set; the worker never moves again. *)
Lemma worker_killed_by_exit :
  run (always Exits) sysexit_scenario (init 1) = Some dead_pool ∧
  workers dead_pool = [WDied] ∧
  running dead_pool = true ∧
  worker (always Exits) 0 dead_pool = None.
Proof. repeat split; vm_compute; reflexivity. Qed.


Section Lifecycle.

Variable behaviour : task → nat → outcome.

(** A step changes at most the program point of the worker that moved. *)
Lemma step_pc a s s' w p' :
  step behaviour a s = Some s' →
  workers s' !! w = Some p' →
  workers s !! w = Some p' ∨
  (a = AWorker w ∧ ∃ p, workers s !! w = Some p ∧ wstep behaviour w p s s').
Proof.
  destruct a as [tk' r| |w0]; simpl.
  - unfold submit. simpl. intros H.
    destruct (Queue.put _ _); simplify_eq/=. auto.
  - intros [= <-]. auto.
  - intros Hstep Hp'. destruct (decide (w0 = w)) as [->|Hne].
    + apply worker_wstep in Hstep. auto.
    + left. apply worker_wstep in Hstep as (p & Hp & Hs).
      destruct Hs; simpl in Hp';
        by rewrite list_lookup_insert_ne in Hp'.
Qed.

(** The program point a worker step leads to. *)
Lemma wstep_target w p s s' p' :
  workers s !! w = Some p →
  wstep behaviour w p s s' →
  workers s' !! w = Some p' →
  match p with
  | WHead => if running s then p' = WGet else p' = WExited
  | WGet => match Queue.queue (task_queue s) with
            | [] => p' = WHead
            | x :: _ => p' = WCall x
            end
  | WCall x => match behaviour x.1 (calls x.1 (history s)) with
               | Returns => p' = WFinally x false
               | Fails => p' = WExcept x
               | Exits => p' = WFinally x true
               end
  | WExcept x => if bool_decide (0 < x.2)%Z then p' = WSubmit x
                 else p' = WFinally x false
  | WSubmit x => p' = WFinally x false
  | WFinally x raising =>
      match Queue.task_done (task_queue s) with
      | Some _ => if raising then p' = WDied else p' = WHead
      | None => p' = WDied
      end
  | WExited | WDied => False
  end.
Proof.
  intros Hp Hs Hp'. apply lookup_lt_Some in Hp.
  destruct Hs; simpl in Hp';
    rewrite list_lookup_insert_eq in Hp' by done; simplify_eq;
    repeat match goal with
           | H : _ = _ |- _ => rewrite H
           end;
    rewrite ?bool_decide_eq_true_2, ?bool_decide_eq_false_2 by lia;
    try done.
Qed.

(** C3, as the code has it.  A worker leaves its loop only by testing
    [while self.running] with the flag false.  It comes to that test
    after a dequeue timeout, and also straight after [task_done] for the
    item it processed. *)
Theorem exit_only_at_loop_head (a : action) (s s' : TaskQueue) (w : nat) :
  step behaviour a s = Some s' →
  (workers s' !! w = Some WExited →
   workers s !! w ≠ Some WExited →
   a = AWorker w ∧ workers s !! w = Some WHead ∧ running s = false) ∧
  (workers s' !! w = Some WHead →
   workers s !! w ≠ Some WHead →
   a = AWorker w ∧
   ((workers s !! w = Some WGet ∧ Queue.queue (task_queue s) = []) ∨
    ∃ x, workers s !! w = Some (WFinally x false))).
Proof.
  intros Hstep. split; intros Hp' Hne.
  - destruct (step_pc _ _ _ _ _ Hstep Hp') as [?|[-> (p & Hp & Hs)]]; [done|].
    pose proof (wstep_target _ _ _ _ _ Hp Hs Hp') as Ht.
    split; [done|].
    destruct p as [| |x|x|x|x raising| |]; simpl in Ht;
      repeat case_match; simplify_eq; done.
  - destruct (step_pc _ _ _ _ _ Hstep Hp') as [?|[-> (p & Hp & Hs)]]; [done|].
    pose proof (wstep_target _ _ _ _ _ Hp Hs Hp') as Ht.
    split; [done|].
    destruct p as [| |x|x|x|x raising| |]; simpl in Ht;
      repeat case_match; simplify_eq; eauto.
Qed.

End Lifecycle.

(** C3, as stated, fails: the worker exits right after [task_done] for the
    item it processed, and no dequeue of it ever timed out. *)
Lemma exit_without_timeout :
  run (always Returns) exit_scenario (init 1) = Some exit_before ∧
  last (history exit_before) = Some (EvDone 0 (7, 3%Z)) ∧
  ∃ s', step (always Returns) (AWorker 0) exit_before = Some s' ∧
        workers s' !! 0 = Some WExited ∧
        timeouts 0 (history s') = 0.
Proof.
  split; [vm_compute; reflexivity|]. split; [reflexivity|].
  eexists. split; [vm_compute; reflexivity|]. split; reflexivity.
Qed.

Lemma exit_only_at_loop_head_witness :
  ∃ s', step (always Returns) (AWorker 0) exit_before = Some s' ∧
        workers exit_before !! 0 = Some WHead ∧
        running exit_before = false.
Proof.
  eexists. split; [vm_compute; reflexivity|].
  eapply (exit_only_at_loop_head (always Returns) (AWorker 0) exit_before _ 0).
  - vm_compute; reflexivity.
  - reflexivity.
  - discriminate.
Defined.

Section DoneOnce.

Variable behaviour : task → nat → outcome.

Lemma init_done_once n w x : done_once w x (init n).
Proof.
  intros p Hp. simpl in Hp. apply lookup_replicate_1 in Hp as [-> _]. done.
Qed.

Lemma step_done_once a s s' w x :
  step behaviour a s = Some s' →
  counter_ok s → done_once w x s → done_once w x s'.
Proof.
  intros Hstep Hok Hinv p' Hp'.
  destruct a as [tk' r| |w0]; simpl in Hstep.
  - unfold submit in Hstep. simpl in Hstep.
    destruct (Queue.put _ _); simplify_eq/=.
    unfold gets, dones. rewrite !sum_list_with_snoc. simpl.
    rewrite !Nat.add_0_r. by apply Hinv.
  - simplify_eq/=. by apply Hinv.
  - apply worker_wstep in Hstep as (p & Hp & Hs).
    destruct (decide (w0 = w)) as [->|Hne].
    + specialize (Hinv _ Hp).
      pose proof (λ y, held_counter w p y s Hok Hp) as Hc.
      apply lookup_lt_Some in Hp.
      destruct Hs; queue_ops; simpl in Hp';
        rewrite list_lookup_insert_eq in Hp' by done; simplify_eq;
        unfold gets, dones, hold in *; simpl in *;
        rewrite ?sum_list_with_snoc; simpl;
        repeat case_decide; simplify_eq; try lia;
        try (exfalso; intuition congruence).
      all: specialize (Hc _ eq_refl); lia.
    + assert (workers s !! w = Some p') as Hw.
      { destruct Hs; simpl in Hp';
          by rewrite list_lookup_insert_ne in Hp'. }
      specialize (Hinv _ Hw).
      destruct Hs; unfold gets, dones in *; simpl;
        rewrite ?sum_list_with_snoc; simpl;
        repeat case_decide; try lia; exfalso; intuition congruence.
Qed.

Lemma run_done_once tr s s' w x :
  run behaviour tr s = Some s' →
  counter_ok s → done_once w x s → done_once w x s'.
Proof.
  revert s. induction tr as [|a tr IH]; intros s; simpl.
  - by intros [= <-].
  - destruct (step behaviour a s) as [s1|] eqn:Hstep; simpl; [|done].
    intros Hrun Hok Hinv. eapply IH; [done|..].
    + by eapply step_counter_ok.
    + by eapply step_done_once.
Qed.

(** A worker that holds an item can always move, and moves towards
    [task_done]. *)
Lemma hold_step w s p x :
  counter_ok s → workers s !! w = Some p → held p = Some x →
  ∃ s1 p1,
    worker behaviour w s = Some s1 ∧ workers s1 !! w = Some p1 ∧
    gets w x (history s1) = gets w x (history s) ∧
    ((held p1 = Some x ∧ rank p1 < rank p ∧
      dones w x (history s1) = dones w x (history s)) ∨
     (held p1 = None ∧
      dones w x (history s1) = S (dones w x (history s)))).
Proof.
  intros Hok Hp Hx.
  pose proof (task_done_held _ _ _ _ Hok Hp Hx) as Hdone.
  pose proof (lookup_lt_Some _ _ _ Hp) as Hlt.
  assert (∀ s1 p1 evs,
    wstep behaviour w p s s1 →
    workers s1 = <[w := p1]> (workers s) →
    history s1 = history s ++ evs →
    gets w x evs = 0 →
    (held p1 = Some x ∧ rank p1 < rank p ∧ dones w x evs = 0) ∨
    (held p1 = None ∧ dones w x evs = 1) →
    ∃ s1 p1,
      worker behaviour w s = Some s1 ∧ workers s1 !! w = Some p1 ∧
      gets w x (history s1) = gets w x (history s) ∧
      ((held p1 = Some x ∧ rank p1 < rank p ∧
        dones w x (history s1) = dones w x (history s)) ∨
       (held p1 = None ∧
        dones w x (history s1) = S (dones w x (history s))))) as Hgo.
  { intros s1 p1 evs Hs Hw Hh Hg Hd. exists s1, p1.
    split; [by eapply worker_at|].
    split; [rewrite Hw; by apply list_lookup_insert_eq|].
    rewrite Hh. unfold gets, dones in *. rewrite !sum_list_with_app.
    split; [lia|]. destruct Hd as [(?&?&?)|[? ?]]; [left|right];
      repeat split; try done; lia. }
  destruct Hok as [Hmax _].
  destruct p as [| |y|y|y|y raising| |]; simplify_eq/=.
  - destruct (behaviour x.1 (calls x.1 (history s))) eqn:Hb.
    + eapply (Hgo _ _ [_]); [by apply ws_return|done|done|done|].
      left. simpl. repeat split; (done || lia).
    + eapply (Hgo _ _ [_]); [by apply ws_fail|done|done|done|].
      left. simpl. repeat split; (done || lia).
    + eapply (Hgo _ _ [_]); [by apply ws_sysexit|done|done|done|].
      left. simpl. repeat split; (done || lia).
  - destruct (decide (0 < x.2)%Z).
    + eapply (Hgo _ _ [_]); [by apply ws_retry|done|done|done|].
      left. simpl. repeat split; (done || lia).
    + eapply (Hgo _ _ []); [apply ws_drop; lia|done| |done|].
      * simpl. by rewrite app_nil_r.
      * left. simpl. repeat split; (done || lia).
  - eapply (Hgo _ _ [_]);
      [apply ws_resubmit; by apply put_unbounded|done|done|done|].
    left. simpl. repeat split; (done || lia).
  - destruct raising.
    + eapply (Hgo _ _ [EvDone w x; EvDie w]);
        [by apply ws_done_die|done| |done|].
      * simpl. by rewrite <- app_assoc.
      * right. unfold dones. simpl.
        rewrite decide_True by done. done.
    + eapply (Hgo _ _ [_]); [by apply ws_done|done|done|done|].
      right. unfold dones. simpl.
      rewrite decide_True by done. done.
Qed.

Lemma finish_item w x k :
  ∀ s p,
    rank p ≤ k →
    counter_ok s → workers s !! w = Some p → held p = Some x →
    ∃ j s',
      j ≤ k ∧
      run behaviour (replicate j (AWorker w)) s = Some s' ∧
      gets w x (history s') = gets w x (history s) ∧
      dones w x (history s') = S (dones w x (history s)) ∧
      ∃ p', workers s' !! w = Some p' ∧ held p' = None.
Proof.
  induction k as [|k IH]; intros s p Hrank Hok Hp Hx.
  - destruct p; simplify_eq/=; lia.
  - destruct (hold_step _ _ _ _ Hok Hp Hx)
      as (s1 & p1 & Hstep & Hp1 & Hg & [(Hx1 & Hr & Hd)|[Hx1 Hd]]).
    + assert (counter_ok s1) as Hok1.
      { by eapply (step_counter_ok behaviour (AWorker w)). }
      destruct (IH s1 p1 ltac:(lia) Hok1 Hp1 Hx1)
        as (j & s' & Hj & Hrun & Hg' & Hd' & Hp').
      exists (S j), s'. split; [lia|]. simpl. rewrite Hstep. simpl.
      split; [done|]. split; [congruence|]. split; [congruence|done].
    + exists 1, s1. split; [lia|]. simpl. rewrite Hstep. simpl.
      split; [done|]. split; [done|]. split; [done|]. eauto.
Qed.

(** C4.  For every worker and item, in every state the pool reaches: the
    worker called [task_done] once for each time it dequeued the item,
    but for the item it holds now; and a worker that holds an item calls
    [task_done] for it, once, within four of its steps, whatever the
    task does and whether or not a successor is queued. *)
Theorem task_done_exactly_once (n : Z) (tr : list action) (s : TaskQueue)
    (w : nat) (p : pc) (x : item) :
  run behaviour tr (init n) = Some s →
  workers s !! w = Some p →
  gets w x (history s) = dones w x (history s) + hold p x ∧
  (held p = Some x →
   ∃ j s',
     j ≤ 4 ∧
     run behaviour (replicate j (AWorker w)) s = Some s' ∧
     gets w x (history s') = gets w x (history s) ∧
     dones w x (history s') = S (dones w x (history s)) ∧
     ∃ p', workers s' !! w = Some p' ∧ held p' = None).
Proof.
  intros Hrun Hp.
  assert (counter_ok s) as Hok.
  { eapply run_counter_ok; [done|]. apply init_counter_ok. }
  split.
  - eapply run_done_once; [done|apply init_counter_ok| |done].
    apply init_done_once.
  - intros Hx. eapply finish_item; [|done|done|done].
    destruct p; simpl; lia.
Qed.

End DoneOnce.

Lemma task_done_exactly_once_witness :
  gets 0 (7, 1%Z) (history (at_call 1))
  = dones 0 (7, 1%Z) (history (at_call 1)) + 1 ∧
  ∃ j s',
    j ≤ 4 ∧
    run (always Fails) (replicate j (AWorker 0)) (at_call 1) = Some s' ∧
    dones 0 (7, 1%Z) (history s') = 1.
Proof.
  destruct (task_done_exactly_once (always Fails) 1
              [ASubmit 7 (Some 1%Z); AWorker 0; AWorker 0] (at_call 1)
              0 (WCall (7, 1%Z)) (7, 1%Z)) as [H1 H2].
  - vm_compute; reflexivity.
  - reflexivity.
  - split; [exact H1|].
    destruct (H2 eq_refl) as (j & s' & Hj & Hrun & _ & Hd & _).
    exists j, s'. by repeat split.
Defined.

Section Fifo.

Variable behaviour : task → nat → outcome.

Ltac log_simpl :=
  unfold got, puts, called, completed in *; simpl;
  rewrite ?omap_app; simpl; rewrite ?app_nil_r.

Lemma step_fifo a s s' :
  step behaviour a s = Some s' → fifo_ok s → fifo_ok s'.
Proof.
  unfold fifo_ok. intros Hstep Hinv.
  destruct a as [tk' r| |w]; simpl in Hstep.
  - unfold submit in Hstep. simpl in Hstep.
    destruct (Queue.put _ _) eqn:Hput; simplify_eq/=. queue_ops.
    log_simpl. by rewrite app_assoc, Hinv.
  - by simplify_eq/=.
  - apply worker_wstep in Hstep as (p & Hp & Hs).
    destruct Hs; queue_ops; log_simpl; try done.
    + rewrite <- Hinv, <- app_assoc. simpl. congruence.
    + by rewrite app_assoc, Hinv.
Qed.

Lemma step_serial a s s' :
  step behaviour a s = Some s' →
  counter_ok s → serial_ok s → serial_ok s'.
Proof.
  intros Hstep Hok (p & Hw & Hdone & Hcall).
  destruct a as [tk' r| |w]; simpl in Hstep.
  - unfold submit in Hstep. simpl in Hstep.
    destruct (Queue.put _ _) eqn:Hput; simplify_eq/=.
    exists p. log_simpl. done.
  - simplify_eq/=. by exists p.
  - apply worker_wstep in Hstep as (p0 & Hp & Hs).
    pose proof (λ y, task_done_held w p0 y s Hok Hp) as Htd.
    rewrite Hw in Hp. destruct w as [|w]; simplify_eq/=.
    unfold serial_ok.
    destruct Hs; simpl; rewrite Hw; simpl; eexists; (split; [done|]);
      log_simpl; simpl in *; rewrite ?app_nil_r in *;
      try (specialize (Htd _ eq_refl); congruence);
      try done.
    by rewrite Hdone, Hcall.
Qed.

Lemma step_calm a s s' :
  step behaviour a s = Some s' →
  Forall (succeeds behaviour) (submitted [a]) →
  calm behaviour s →
  calm behaviour s' ∧
  puts (history s') = puts (history s) ++ submitted [a].
Proof.
  intros Hstep Hgood [Hq Hws].
  destruct a as [tk' r| |w]; simpl in Hstep.
  - unfold submit in Hstep. simpl in Hstep.
    destruct (Queue.put _ _) eqn:Hput; simplify_eq/=. queue_ops.
    split; [|by log_simpl]. split; simpl; [|done].
    apply Forall_app. split; [done|]. exact Hgood.
  - simplify_eq/=. split; [done|]. by rewrite app_nil_r.
  - apply worker_wstep in Hstep as (p & Hp & Hs).
    pose proof (Forall_lookup_1 _ _ _ _ Hws Hp) as Hpc.
    unfold calm.
    destruct Hs; queue_ops; simpl in *; try done; log_simpl;
      (split; [split|]); simpl; try done;
      try (apply Forall_insert; [done|]); simpl; try done.
    + rewrite H in Hq. by inversion Hq.
    + rewrite H in Hq. by inversion Hq.
    + rewrite (Hpc _) in H. done.
    + rewrite (Hpc _) in H. done.
Qed.

Lemma run_fifo tr s s' :
  run behaviour tr s = Some s' → fifo_ok s → fifo_ok s'.
Proof.
  revert s. induction tr as [|a tr IH]; intros s; simpl.
  - by intros [= <-].
  - destruct (step behaviour a s) as [s1|] eqn:Hstep; simpl; [|done].
    intros Hrun Hs. eapply IH; [done|]. by eapply step_fifo.
Qed.

Lemma submitted_cons a tr : submitted (a :: tr) = submitted [a] ++ submitted tr.
Proof. unfold submitted. by rewrite <- omap_app. Qed.

(** One worker and only tasks that succeed: the queue receives exactly
    what the callers submit. *)
Lemma run_single tr :
  ∀ s s',
    run behaviour tr s = Some s' →
    Forall (succeeds behaviour) (submitted tr) →
    counter_ok s → serial_ok s → calm behaviour s →
    counter_ok s' ∧ serial_ok s' ∧ calm behaviour s' ∧
    puts (history s') = puts (history s) ++ submitted tr.
Proof.
  induction tr as [|a tr IH]; intros s s' Hrun Hgood Hok Hser Hcalm.
  - simplify_eq/=. by rewrite app_nil_r.
  - rewrite submitted_cons in *. apply Forall_app in Hgood as [Ha Htr].
    simpl in Hrun.
    destruct (step behaviour a s) as [s1|] eqn:Hstep; simpl in Hrun; [|done].
    destruct (step_calm _ _ _ Hstep Ha Hcalm) as [Hcalm1 Hputs1].
    destruct (IH s1 s' Hrun Htr) as (Hok' & Hser' & Hcalm' & Hputs');
      [by eapply step_counter_ok|by eapply step_serial|done|].
    split; [done|]. split; [done|]. split; [done|].
    by rewrite Hputs', Hputs1, app_assoc.
Qed.

Lemma init_serial : serial_ok (init 1).
Proof. by exists WHead. Qed.

Lemma init_calm n : calm behaviour (init n).
Proof.
  split; simpl; [constructor|]. apply Forall_replicate. done.
Qed.

(** C7.  In every state the pool reaches, the items dequeued so far
    followed by the queued ones are the items put, in the order they were
    put, and a dequeue takes the head of the queue.  With one worker and
    tasks that succeed, calls and completions follow the order of
    submission, and when [join] can return all of them completed.  With a
    retry they need not: in [overtaking_scenario] task 1 is submitted
    before task 2, fails once, is put again behind task 2, and succeeds
    after it. *)
Theorem fifo_order (n : Z) (tr : list action) (s : TaskQueue) :
  run behaviour tr (init n) = Some s →
  got (history s) ++ Queue.queue (task_queue s) = puts (history s) ∧
  (∀ w x rest,
     workers s !! w = Some WGet →
     Queue.queue (task_queue s) = x :: rest →
     ∃ s', step behaviour (AWorker w) s = Some s' ∧
           workers s' !! w = Some (WCall x) ∧
           Queue.queue (task_queue s') = rest) ∧
  (n = 1%Z →
   Forall (succeeds behaviour) (submitted tr) →
   called (history s) `prefix_of` submitted tr ∧
   completed (history s) `prefix_of` submitted tr ∧
   (Queue.join_returns (task_queue s) = true →
    completed (history s) = submitted tr)) ∧
  (run flaky_once overtaking_scenario (init 1) = Some overtaking_final ∧
   submitted overtaking_scenario = [(1, 1%Z); (2, 3%Z)] ∧
   puts (history overtaking_final) = [(1, 1%Z); (2, 3%Z); (1, 0%Z)] ∧
   succeeded (history overtaking_final) = [2; 1]).
Proof.
  intros Hrun.
  assert (fifo_ok s) as Hfifo by (by eapply run_fifo).
  split; [exact Hfifo|]. split; [|split].
  - intros w x rest Hp Hq. eexists. split.
    + simpl. eapply worker_at; [done|]. by apply ws_get.
    + split; [|done]. simpl. apply list_lookup_insert_eq.
      by eapply lookup_lt_Some.
  - intros -> Hgood.
    destruct (run_single _ _ _ Hrun Hgood)
      as (Hok & (p & Hw & Hdone & Hcall) & _ & Hputs);
      [apply init_counter_ok|apply init_serial|apply init_calm|].
    simpl in Hputs. unfold fifo_ok in Hfifo. rewrite Hputs in Hfifo.
    split; [|split].
    + rewrite <- Hfifo, <- Hcall, <- app_assoc. by eexists.
    + rewrite <- Hfifo, <- Hdone, <- app_assoc. by eexists.
    + intros Hjoin. destruct (drained s Hok Hjoin) as [Hq Hheld].
      rewrite Hw in Hheld. apply (proj1 (Forall_singleton _ _)) in Hheld.
      simpl in Hheld. rewrite Hheld in Hdone. simpl in Hdone.
      rewrite Hq in Hfifo. rewrite app_nil_r in Hdone, Hfifo. congruence.
  - repeat split; vm_compute; reflexivity.
Qed.

End Fifo.

Lemma fifo_order_witness :
  run (always Returns) in_order_scenario (init 1) = Some in_order_final ∧
  submitted in_order_scenario = [(1, 3%Z); (2, 0%Z)] ∧
  called (history in_order_final) = [(1, 3%Z); (2, 0%Z)] ∧
  completed (history in_order_final) = [(1, 3%Z); (2, 0%Z)].
Proof.
  assert (run (always Returns) in_order_scenario (init 1)
          = Some in_order_final) as Hrun by (vm_compute; reflexivity).
  destruct (fifo_order (always Returns) 1 in_order_scenario in_order_final
              Hrun) as (_ & _ & H & _).
  destruct (H eq_refl) as (_ & _ & Hall).
  - repeat constructor.
  - split; [exact Hrun|]. split; [reflexivity|]. split; [reflexivity|].
    exact (Hall eq_refl).
Defined.

(** ** Retries below zero behave as zero *)

Lemma norm_state_intro (s1 s2 : TaskQueue) :
  Queue.maxsize (task_queue s1) = Queue.maxsize (task_queue s2) →
  norm_item <$> Queue.queue (task_queue s1)
  = norm_item <$> Queue.queue (task_queue s2) →
  Queue.unfinished_tasks (task_queue s1)
  = Queue.unfinished_tasks (task_queue s2) →
  norm_pc <$> workers s1 = norm_pc <$> workers s2 →
  running s1 = running s2 →
  norm_event <$> history s1 = norm_event <$> history s2 →
  norm_state s1 = norm_state s2.
Proof. unfold norm_state. by intros -> -> -> -> -> ->. Qed.

Lemma norm_state_elim (s1 s2 : TaskQueue) :
  norm_state s1 = norm_state s2 →
  Queue.maxsize (task_queue s1) = Queue.maxsize (task_queue s2) ∧
  norm_item <$> Queue.queue (task_queue s1)
  = norm_item <$> Queue.queue (task_queue s2) ∧
  Queue.unfinished_tasks (task_queue s1)
  = Queue.unfinished_tasks (task_queue s2) ∧
  norm_pc <$> workers s1 = norm_pc <$> workers s2 ∧
  running s1 = running s2 ∧
  norm_event <$> history s1 = norm_event <$> history s2.
Proof. unfold norm_state. intros [= ? ? ? ? ? ?]. done. Qed.

Lemma calls_norm tk h : calls tk (norm_event <$> h) = calls tk h.
Proof.
  unfold calls. induction h as [|e h IH]; csimpl; [done|].
  rewrite IH. by destruct e.
Qed.

Lemma stdout_norm h : stdout (norm_event <$> h) = stdout h.
Proof.
  unfold stdout. induction h as [|e h IH]; csimpl; [done|].
  rewrite IH. by destruct e.
Qed.

Lemma norm_item_eq (x y : item) :
  norm_item x = norm_item y →
  x.1 = y.1 ∧
  bool_decide (0 < x.2)%Z = bool_decide (0 < y.2)%Z ∧
  norm_item (x.1, (x.2 - 1)%Z) = norm_item (y.1, (y.2 - 1)%Z).
Proof.
  destruct x as [t1 r1], y as [t2 r2]. unfold norm_item. simpl.
  intros [= -> Hr]. split; [done|]. split.
  - apply bool_decide_ext. lia.
  - f_equal. lia.
Qed.

Section Negative.

Variable behaviour : task → nat → outcome.

Lemma step_norm a1 a2 s1 s2 :
  norm_action a1 = norm_action a2 →
  norm_state s1 = norm_state s2 →
  norm_state <$> step behaviour a1 s1 = norm_state <$> step behaviour a2 s2.
Proof.
  intros Ha Hs.
  pose proof (norm_state_elim _ _ Hs) as (Hm & Hq & Hu & Hw & Hr & Hh).
  assert (∀ tk, calls tk (history s1) = calls tk (history s2)) as Hcalls.
  { intros tk. by rewrite <- (calls_norm tk (history s1)), Hh, calls_norm. }
  assert (length (Queue.queue (task_queue s1))
          = length (Queue.queue (task_queue s2))) as Hlen.
  { by rewrite <- (length_fmap norm_item), Hq, length_fmap. }
  destruct a1 as [tk1 r1| |w1], a2 as [tk2 r2| |w2]; simplify_eq/=.
  - unfold submit, Queue.put. simpl. rewrite Hm, Hlen.
    case_match; simpl; [done|]. f_equal.
    apply norm_state_intro; simpl; rewrite ?fmap_app; simpl;
      unfold norm_item in *; simpl; congruence.
  - f_equal. by apply norm_state_intro.
  - unfold worker.
    assert (norm_pc <$> workers s1 !! w2 = norm_pc <$> workers s2 !! w2)
      as Hp by (by rewrite <- !list_lookup_fmap, Hw).
    destruct (workers s1 !! w2) as [p1|], (workers s2 !! w2) as [p2|];
      simpl in Hp; try discriminate Hp; [|done].
    injection Hp as Hp.
    destruct p1 as [| |x1|x1|x1|x1 b1| |], p2 as [| |x2|x2|x2|x2 b2| |];
      simpl in Hp; try discriminate Hp; simpl; try done;
      try (assert (norm_item x1 = norm_item x2) as Hx by congruence;
           pose proof (norm_item_eq _ _ Hx) as (Ht & Hpos & Hnext));
      try (assert (b1 = b2) as -> by congruence).
    + rewrite Hr. destruct (running s2) eqn:?; simpl; f_equal;
        apply norm_state_intro; simpl;
        rewrite ?list_fmap_insert, ?fmap_app; simpl; congruence.
    + unfold Queue.get.
      destruct (Queue.queue (task_queue s1)) as [|y1 q1] eqn:E1,
               (Queue.queue (task_queue s2)) as [|y2 q2] eqn:E2;
        simplify_eq/=; f_equal;
        apply norm_state_intro; simpl;
        rewrite ?E1, ?E2, ?list_fmap_insert, ?fmap_app; simpl;
        unfold norm_item in *; simpl; congruence.
    + rewrite Ht, Hcalls.
      destruct (behaviour x2.1 (calls x2.1 (history s2))); simpl; f_equal;
        apply norm_state_intro; simpl;
        rewrite ?list_fmap_insert, ?fmap_app; simpl; congruence.
    + rewrite Hpos. destruct (bool_decide (0 < x2.2)%Z); simpl; f_equal;
        apply norm_state_intro; simpl;
        rewrite ?list_fmap_insert, ?fmap_app; simpl; congruence.
    + unfold submit, Queue.put. simpl. rewrite Hm, Hlen.
      case_match; simpl; [done|]. f_equal.
      apply norm_state_intro; simpl;
        rewrite ?list_fmap_insert, ?fmap_app; simpl; congruence.
    + unfold Queue.task_done. simpl. rewrite Hu.
      destruct (bool_decide (_ - 1 < 0)%Z); [|destruct b2]; simpl; f_equal;
        apply norm_state_intro; simpl;
        rewrite ?list_fmap_insert, ?fmap_app; simpl; congruence.
Qed.

Lemma run_norm tr1 :
  ∀ tr2 s1 s2 s1',
    norm_action <$> tr1 = norm_action <$> tr2 →
    norm_state s1 = norm_state s2 →
    run behaviour tr1 s1 = Some s1' →
    ∃ s2', run behaviour tr2 s2 = Some s2' ∧ norm_state s1' = norm_state s2'.
Proof.
  induction tr1 as [|a1 tr1 IH]; intros [|a2 tr2] s1 s2 s1' Htr Hs Hrun;
    try discriminate Htr.
  - simpl in Hrun. injection Hrun as <-. by exists s2.
  - injection Htr as Ha Htr. simpl in Hrun. simpl.
    pose proof (step_norm _ _ _ _ Ha Hs) as Hstep.
    destruct (step behaviour a1 s1) as [t1|]; simpl in Hrun; [|done].
    destruct (step behaviour a2 s2) as [t2|]; simpl in Hstep; [|done].
    simpl in *. eapply IH; [done| |done]. congruence.
Qed.

Lemma forfeit_no_calls tk h :
  calls tk h = 0 → sum_list_with (forfeit tk) h = 0.
Proof.
  unfold calls. induction h as [|e h IH]; simpl; [done|].
  intros Hc. rewrite IH by lia.
  destruct e as [| | |w x o| | | |]; simpl in *; try done.
  case_decide; [lia|]. by destruct o.
Qed.

(** C10.  [submit] takes a negative [retries] as it takes any other.  A
    run of the pool and the run in which callers pass 0 wherever they
    passed a negative [retries] reach states that are the same but for
    those numbers: same output, same calls, same counters, same program
    points.  A task submitted once with a negative [retries] is called at
    most once, exactly once when [join] can return, and when that call
    fails the worker only calls [task_done]: nothing is printed and
    nothing is put on the queue. *)
Theorem negative_retries_as_zero (n : Z) (tr : list action) (s : TaskQueue)
    (tk : task) (r : Z) :
  run behaviour tr (init n) = Some s →
  (r < 0)%Z →
  (∃ s', submit tk (Some r) s = Some s' ∧
         Queue.queue (task_queue s')
         = Queue.queue (task_queue s) ++ [(tk, r)]) ∧
  norm_action (ASubmit tk (Some r)) = norm_action (ASubmit tk (Some 0%Z)) ∧
  (∀ tr0,
     norm_action <$> tr0 = norm_action <$> tr →
     ∃ s0, run behaviour tr0 (init n) = Some s0 ∧
           norm_state s0 = norm_state s ∧
           stdout (history s0) = stdout (history s) ∧
           ∀ tk', calls tk' (history s0) = calls tk' (history s)) ∧
  (submissions tk tr = [r] →
   calls tk (history s) ≤ 1 ∧
   (Queue.join_returns (task_queue s) = true → calls tk (history s) = 1)) ∧
  (∀ w,
     workers s !! w = Some (WCall (tk, r)) →
     behaviour tk (calls tk (history s)) = Fails →
     run behaviour (replicate 3 (AWorker w)) s
     = Some (finished w WHead []
               [EvCall w (tk, r) Fails; EvDone w (tk, r)] s)).
Proof.
  intros Hrun Hr.
  assert (counter_ok s) as Hok.
  { eapply run_counter_ok; [done|]. apply init_counter_ok. }
  split; [|split; [|split; [|split]]].
  - unfold submit. rewrite put_unbounded by apply Hok. simpl.
    eexists. split; done.
  - simpl. do 2 f_equal. lia.
  - intros tr0 Htr.
    destruct (run_norm tr (tr0) (init n) (init n) s (eq_sym Htr) eq_refl Hrun)
      as (s0 & Hrun0 & Hs0).
    exists s0. split; [done|]. split; [done|].
    apply norm_state_elim in Hs0 as (_ & _ & _ & _ & _ & Hh).
    split.
    + by rewrite <- (stdout_norm (history s0)), <- Hh, stdout_norm.
    + intros tk'.
      by rewrite <- (calls_norm tk' (history s0)), <- Hh, calls_norm.
  - intros Hsub.
    pose proof (run_potential behaviour tk _ _ _ Hrun) as Hpot.
    rewrite potential_init, trace_budget_submissions, Hsub in Hpot.
    simpl in Hpot. unfold budget in Hpot.
    replace (Z.to_nat r) with 0 in Hpot by lia.
    split; [unfold potential in Hpot; lia|].
    intros Hjoin. rewrite (drained_potential tk s Hok Hjoin) in Hpot.
    destruct (decide (calls tk (history s) = 0)) as [H0|H0]; [|lia].
    rewrite (forfeit_no_calls _ _ H0) in Hpot. lia.
  - intros w Hp Hfail.
    apply (run_fail_drop behaviour w s (tk, r)); simpl; [done..|lia].
Qed.

End Negative.

Lemma negative_retries_as_zero_witness :
  run (always Fails) (negative_scenario (-4)) (init 2) = Some negative_final ∧
  run (always Fails) (negative_scenario 0) (init 2) = Some zero_final ∧
  norm_state zero_final = norm_state negative_final ∧
  stdout (history negative_final) = [] ∧
  calls 7 (history negative_final) = 1.
Proof.
  assert (run (always Fails) (negative_scenario (-4)) (init 2)
          = Some negative_final) as Hrun by (vm_compute; reflexivity).
  destruct (negative_retries_as_zero (always Fails) 2 (negative_scenario (-4))
              negative_final 7 (-4) Hrun ltac:(lia))
    as (_ & _ & Hsame & Honce & _).
  split; [exact Hrun|].
  destruct (Hsame (negative_scenario 0) eq_refl) as (s0 & Hrun0 & Hs0 & _).
  assert (s0 = zero_final) as ->.
  { assert (run (always Fails) (negative_scenario 0) (init 2)
            = Some zero_final) as Hz by (vm_compute; reflexivity).
    congruence. }
  split; [exact Hrun0|]. split; [exact Hs0|]. split; [reflexivity|].
  destruct (Honce eq_refl) as [_ H1]. exact (H1 eq_refl).
Defined.

(** C5, as stated, fails: the call of the task returned, [task_done] was
    called, and the worker, finding the flag cleared, leaves its loop: it
    does not poll the queue again, though a new item is waiting. *)
Lemma success_then_exit :
  ∃ s1,
    run (always Returns) exit_scenario (init 1) = Some exit_before ∧
    called (history exit_before) = [(7, 3%Z)] ∧
    succeeded (history exit_before) = [7] ∧
    completed (history exit_before) = [(7, 3%Z)] ∧
    run (always Returns) [ASubmit 8 None; AWorker 0] exit_before = Some s1 ∧
    workers s1 = [WExited] ∧
    Queue.queue (task_queue s1) = [(8, 3%Z)] ∧
    step (always Returns) (AWorker 0) s1 = None.
Proof.
  eexists.
  split; [vm_compute; reflexivity|].
  split; [reflexivity|]. split; [reflexivity|]. split; [reflexivity|].
  split; [vm_compute; reflexivity|].
  split; [reflexivity|]. split; [reflexivity|].
  vm_compute. reflexivity.
Qed.

Lemma submit_never_blocks_witness :
  ∃ s', submit 9 None dead_pool = Some s' ∧
        Queue.queue (task_queue s') = [(9, 3%Z)] ∧
        Queue.unfinished_tasks (task_queue s') = 1%Z.
Proof.
  destruct (submit_never_blocks (always Exits) 1 sysexit_scenario dead_pool
              9 None) as (_ & _ & s' & Hsub & Hq & Hu & _).
  - vm_compute; reflexivity.
  - exists s'. by repeat split.
Defined.

Lemma resubmit_before_done_witness :
  ∃ s2 s3,
    run (always Fails) (replicate 2 (AWorker 0)) at_except = Some s2 ∧
    step (always Fails) (AWorker 0) s2 = Some s3 ∧
    history s2 = history at_except ++
      [EvPrint 0 "Retrying task..."; EvPut (7, 0%Z)] ∧
    Queue.unfinished_tasks (task_queue s2) = 2%Z ∧
    history s3 = history s2 ++ [EvDone 0 (7, 1%Z)] ∧
    Queue.unfinished_tasks (task_queue s3) = 1%Z.
Proof.
  destruct (resubmit_before_done (always Fails) 1
              [ASubmit 7 (Some 1%Z); AWorker 0; AWorker 0; AWorker 0]
              at_except) as (H & _ & _).
  - vm_compute; reflexivity.
  - destruct (H 0 (7, 1%Z) eq_refl ltac:(simpl; lia))
      as (s2 & s3 & Hrun & Hstep & Hh2 & Hu2 & _ & Hh3 & Hu3).
    exists s2, s3. by repeat split.
Defined.

(** ** The life of the pool *)

Section Life.

Variable behaviour : task → nat → outcome.

(** A property kept by every step is kept by every run. *)
Lemma run_invariant (P : TaskQueue → Prop) tr s s' :
  (∀ a s1 s2, step behaviour a s1 = Some s2 → P s1 → P s2) →
  run behaviour tr s = Some s' → P s → P s'.
Proof.
  intros Hstep. revert s. induction tr as [|a tr IH]; intros s; simpl.
  - by intros [= <-].
  - destruct (step behaviour a s) as [s1|] eqn:Ha; simpl; [|done].
    intros Hrun Hs. eapply IH; [done|]. by eapply Hstep.
Qed.

(** What a step does to the flag and to the list of workers. *)
Lemma step_frame a s s' :
  step behaviour a s = Some s' →
  running s' = (running s && bool_decide (a ≠ AShutdown)) ∧
  length (workers s') = length (workers s).
Proof.
  destruct a as [tk r| |w]; simpl.
  - unfold submit. simpl. intros H.
    destruct (Queue.put _ _); simplify_eq/=. by rewrite andb_true_r.
  - intros [= <-]. simpl. by rewrite andb_false_r.
  - intros (p & Hp & Hs)%worker_wstep.
    destruct Hs; simpl; by rewrite ?andb_true_r, ?length_insert.
Qed.

Lemma run_running tr :
  ∀ s0 s1,
    run behaviour tr s0 = Some s1 →
    running s1 = (running s0 && bool_decide (AShutdown ∉ tr)).
Proof.
  induction tr as [|a tr IH]; intros s0 s1 Hrun; simpl in Hrun.
  - injection Hrun as <-.
    rewrite (bool_decide_eq_true_2 (AShutdown ∉ [])); [by rewrite andb_true_r|].
    apply not_elem_of_nil.
  - destruct (step behaviour a s0) as [s2|] eqn:Ha; simpl in Hrun; [|done].
    rewrite (IH _ _ Hrun).
    apply step_frame in Ha as [-> _]. rewrite <- andb_assoc. f_equal.
    apply eq_true_iff_eq.
    rewrite andb_true_iff, !bool_decide_eq_true, not_elem_of_cons.
    intuition congruence.
Qed.

(** X1.  The flag [running] is set exactly as long as [shutdown] was never
    called: nothing sets it again, neither a worker nor [submit] nor a
    second [shutdown]. *)
Theorem running_until_shutdown (n : Z) (tr : list action) (s : TaskQueue) :
  run behaviour tr (init n) = Some s →
  running s = bool_decide (AShutdown ∉ tr).
Proof. intros Hrun. by rewrite (run_running _ _ _ Hrun). Qed.

(** X2.  The pool has the number of workers [__init__] started, none for
    a number that is not positive, and keeps it: no step adds or removes a
    worker. *)
Theorem pool_size_fixed (n : Z) (tr : list action) (s : TaskQueue) :
  run behaviour tr (init n) = Some s →
  length (workers s) = Z.to_nat n ∧
  ((n ≤ 0)%Z → workers s = []).
Proof.
  intros Hrun.
  assert (length (workers s) = Z.to_nat n) as Hlen.
  { eapply (run_invariant (λ s, length (workers s) = Z.to_nat n)); [|done|].
    - intros a s1 s2 [_ Hl]%step_frame. congruence.
    - simpl. apply length_replicate. }
  split; [done|]. intros Hn. apply nil_length_inv. lia.
Qed.

(** A worker that left its loop saw the flag cleared. *)
Lemma step_exited a s s' :
  step behaviour a s = Some s' →
  (∀ w, workers s !! w = Some WExited → running s = false) →
  (∀ w, workers s' !! w = Some WExited → running s' = false).
Proof.
  intros Hstep Hinv w Hw.
  pose proof (step_frame _ _ _ Hstep) as [Hr _].
  destruct (step_pc _ _ _ _ _ _ Hstep Hw) as [Hold|[-> (p & Hp & Hs)]].
  - rewrite Hr, (Hinv _ Hold). done.
  - pose proof (wstep_target _ _ _ _ _ _ Hp Hs Hw) as Ht.
    rewrite Hr.
    destruct p as [| |x|x|x|x raising| |]; simpl in Ht;
      repeat case_match; simplify_eq; done.
Qed.

(** X3.  While [shutdown] has not been called no worker leaves its loop:
    a worker in the state Exited means [shutdown] was called before. *)
Theorem no_exit_before_shutdown (n : Z) (tr : list action) (s : TaskQueue)
    (w : nat) :
  run behaviour tr (init n) = Some s →
  workers s !! w = Some WExited →
  AShutdown ∈ tr ∧ running s = false.
Proof.
  intros Hrun Hw.
  assert (running s = false) as Hr.
  { revert w Hw.
    eapply (run_invariant
              (λ s, ∀ w, workers s !! w = Some WExited → running s = false));
      [|done|].
    - intros a s1 s2. apply step_exited.
    - intros w Hw. simpl in Hw. by apply lookup_replicate_1 in Hw as [? _]. }
  split; [|done].
  rewrite (run_running _ _ _ Hrun) in Hr. simpl in Hr.
  apply bool_decide_eq_false in Hr. by apply dec_stable.
Qed.

(** Without a call that raises past the handler no worker is doomed. *)
Lemma step_doomed a s s' :
  (∀ tk k, behaviour tk k ≠ Exits) →
  step behaviour a s = Some s' →
  counter_ok s →
  (∀ w p, workers s !! w = Some p → ¬ doomed p) →
  (∀ w p, workers s' !! w = Some p → ¬ doomed p).
Proof.
  intros Hb Hstep Hok Hinv w p' Hw.
  destruct (step_pc _ _ _ _ _ _ Hstep Hw) as [Hold|[-> (p & Hp & Hs)]].
  - by eapply Hinv.
  - pose proof (wstep_target _ _ _ _ _ _ Hp Hs Hw) as Ht.
    pose proof (Hinv _ _ Hp) as Hnd.
    pose proof (λ x, task_done_held w p x s Hok Hp) as Htd.
    destruct p as [| |x|x|x|x raising| |]; simpl in Ht, Hnd;
      try (rewrite (Htd x eq_refl) in Ht);
      try (pose proof (Hb x.1 (calls x.1 (history s))));
      repeat case_match; simplify_eq; simpl; tauto.
Qed.

(** X4.  If no call of a task raises past [except Exception], no worker
    thread ever ends by an exception: the bookkeeping of the pool itself
    ([put], [task_done]) never raises.  If moreover [shutdown] was never
    called, every worker is still in its loop. *)
Theorem workers_survive (n : Z) (tr : list action) (s : TaskQueue)
    (w : nat) (p : pc) :
  (∀ tk k, behaviour tk k ≠ Exits) →
  run behaviour tr (init n) = Some s →
  workers s !! w = Some p →
  p ≠ WDied ∧ (AShutdown ∉ tr → ended p = false).
Proof.
  intros Hb Hrun Hw.
  assert (counter_ok s ∧ ∀ w p, workers s !! w = Some p → ¬ doomed p)
    as [_ Hnd].
  { eapply (run_invariant
              (λ s, counter_ok s ∧
                    ∀ w p, workers s !! w = Some p → ¬ doomed p)); [|done|].
    - intros a s1 s2 Hstep [Hok Hinv]. split.
      + by eapply step_counter_ok.
      + by eapply step_doomed.
    - split; [apply init_counter_ok|]. intros w0 p0 Hw0. simpl in Hw0.
      apply lookup_replicate_1 in Hw0 as [-> _]. simpl. tauto. }
  assert (p ≠ WDied) as Hp.
  { intros ->. by apply (Hnd _ _ Hw). }
  split; [done|]. intros Hsh.
  destruct p as [| |x|x|x|x raising| |]; try done.
  assert (running s = false) as Hr.
  { revert w Hw.
    eapply (run_invariant
              (λ s, ∀ w, workers s !! w = Some WExited → running s = false));
      [|done|].
    - intros a s1 s2. apply step_exited.
    - intros w Hw. simpl in Hw. by apply lookup_replicate_1 in Hw as [? _]. }
  rewrite (run_running _ _ _ Hrun) in Hr. simpl in Hr.
  by apply bool_decide_eq_false in Hr.
Qed.

(** With the flag cleared a worker dequeues only if it is already in
    [get]. *)
Lemma step_last_get a s s' w p p' :
  step behaviour a s = Some s' →
  running s = false →
  workers s !! w = Some p →
  workers s' !! w = Some p' →
  dequeues w (history s') + may_get p' ≤ dequeues w (history s) + may_get p.
Proof.
  intros Hstep Hr Hp Hp'. unfold dequeues.
  destruct a as [tk r| |w0]; simpl in Hstep.
  - unfold submit in Hstep. simpl in Hstep.
    destruct (Queue.put _ _); simplify_eq/=.
    rewrite sum_list_with_snoc. simpl. lia.
  - simplify_eq/=. lia.
  - apply worker_wstep in Hstep as (p0 & Hp0 & Hs).
    destruct (decide (w0 = w)) as [->|Hne].
    + pose proof (lookup_lt_Some _ _ _ Hp) as Hlt.
      rewrite Hp in Hp0. injection Hp0 as <-.
      destruct Hs; simpl in Hp';
        rewrite list_lookup_insert_eq in Hp' by done; simplify_eq/=;
        rewrite ?sum_list_with_snoc; simpl;
        rewrite ?decide_True by done; first [lia|congruence].
    + assert (p' = p) as ->.
      { destruct Hs; simpl in Hp';
          rewrite list_lookup_insert_ne in Hp' by done; congruence. }
      destruct Hs; simpl; rewrite ?sum_list_with_snoc; simpl;
        rewrite ?decide_False by done; lia.
Qed.

(** X5.  Once the flag is cleared a worker dequeues at most one more item,
    and none unless it was already waiting in [get]: what else is queued
    is left behind. *)
Theorem one_more_dequeue (tr : list action) (s s' : TaskQueue)
    (w : nat) (p : pc) :
  running s = false →
  workers s !! w = Some p →
  run behaviour tr s = Some s' →
  dequeues w (history s') ≤ dequeues w (history s) + may_get p.
Proof.
  intros Hr Hp Hrun.
  assert (running s' = false ∧
          ∀ p', workers s' !! w = Some p' →
                dequeues w (history s') + may_get p'
                ≤ dequeues w (history s) + may_get p) as [_ H].
  { eapply (run_invariant
              (λ s1, running s1 = false ∧
                     ∀ p1, workers s1 !! w = Some p1 →
                           dequeues w (history s1) + may_get p1
                           ≤ dequeues w (history s) + may_get p)); [|done|].
    - intros a s1 s2 Hstep [Hr1 Hinv].
      pose proof (step_frame _ _ _ Hstep) as [Hr2 Hlen].
      split; [by rewrite Hr2, Hr1|]. intros p2 Hp2.
      assert (is_Some (workers s1 !! w)) as [p1 Hp1].
      { apply lookup_lt_is_Some. rewrite <- Hlen. by eapply lookup_lt_Some. }
      pose proof (step_last_get _ _ _ _ _ _ Hstep Hr1 Hp1 Hp2).
      specialize (Hinv _ Hp1). lia.
    - split; [done|]. intros p1 Hp1. rewrite Hp in Hp1. by injection Hp1 as <-. }
  assert (is_Some (workers s' !! w)) as [p' Hp'].
  { apply lookup_lt_is_Some.
    assert (length (workers s') = length (workers s)) as ->.
    { eapply (run_invariant
                (λ s1, length (workers s1) = length (workers s))); [|done|done].
      intros a s1 s2 [_ Hl]%step_frame. congruence. }
    by eapply lookup_lt_Some. }
  specialize (H _ Hp'). lia.
Qed.

(** With the flag cleared, a worker that has not ended can move, and each
    move brings it nearer to its end. *)
Lemma end_step w s p :
  counter_ok s → running s = false →
  workers s !! w = Some p → ended p = false →
  ∃ s1 p1,
    worker behaviour w s = Some s1 ∧ workers s1 !! w = Some p1 ∧
    steps_to_end p1 < steps_to_end p.
Proof.
  intros Hok Hr Hp He.
  pose proof (λ x, task_done_held w p x s Hok Hp) as Hdone.
  pose proof (lookup_lt_Some _ _ _ Hp) as Hlt.
  assert (∀ s1 p1,
    wstep behaviour w p s s1 →
    workers s1 = <[w := p1]> (workers s) →
    steps_to_end p1 < steps_to_end p →
    ∃ s1 p1,
      worker behaviour w s = Some s1 ∧ workers s1 !! w = Some p1 ∧
      steps_to_end p1 < steps_to_end p) as Hgo.
  { intros s1 p1 Hs Hw Hlt1. exists s1, p1.
    split; [by eapply worker_at|].
    split; [rewrite Hw; by apply list_lookup_insert_eq|done]. }
  destruct Hok as [Hmax _].
  destruct p as [| |x|x|x|x raising| |]; simplify_eq/=.
  - eapply Hgo; [by apply ws_exit|done|simpl; lia].
  - destruct (Queue.queue (task_queue s)) as [|x rest] eqn:Hq.
    + eapply Hgo; [by apply ws_empty|done|simpl; lia].
    + eapply Hgo; [by eapply ws_get|done|simpl; lia].
  - destruct (behaviour x.1 (calls x.1 (history s))) eqn:Hb.
    + eapply Hgo; [by apply ws_return|done|simpl; lia].
    + eapply Hgo; [by apply ws_fail|done|simpl; lia].
    + eapply Hgo; [by apply ws_sysexit|done|simpl; lia].
  - destruct (decide (0 < x.2)%Z).
    + eapply Hgo; [by apply ws_retry|done|simpl; lia].
    + eapply Hgo; [apply ws_drop; lia|done|simpl; lia].
  - eapply Hgo; [apply ws_resubmit; by apply put_unbounded|done|simpl; lia].
  - destruct raising.
    + eapply Hgo; [apply ws_done_die; by apply (Hdone x)|done|simpl; lia].
    + eapply Hgo; [apply ws_done; by apply (Hdone x)|done|simpl; lia].
Qed.

Lemma run_to_end w k :
  ∀ s p,
    steps_to_end p ≤ k →
    counter_ok s → running s = false → workers s !! w = Some p →
    ∃ j s' p',
      j ≤ k ∧ run behaviour (replicate j (AWorker w)) s = Some s' ∧
      workers s' !! w = Some p' ∧ ended p' = true.
Proof.
  induction k as [|k IH]; intros s p Hk Hok Hr Hp.
  - exists 0, s, p. split; [done|]. split; [done|]. split; [done|].
    destruct p as [| |x|x|x|x []| |]; simpl in *; done || lia.
  - destruct (ended p) eqn:He.
    { exists 0, s, p. split; [lia|]. done. }
    destruct (end_step _ _ _ Hok Hr Hp He) as (s1 & p1 & Hstep & Hp1 & Hlt).
    assert (counter_ok s1) as Hok1.
    { by eapply (step_counter_ok behaviour (AWorker w)). }
    assert (running s1 = false) as Hr1.
    { pose proof (step_frame (AWorker w) _ _ Hstep) as [-> _].
      by rewrite Hr. }
    destruct (IH s1 p1 ltac:(lia) Hok1 Hr1 Hp1)
      as (j & s' & p' & Hj & Hrun & Hp' & He').
    exists (S j), s', p'. split; [lia|]. simpl. rewrite Hstep. simpl.
    done.
Qed.

(** X6.  After [shutdown] every worker ends: from whatever point of its
    loop, with whatever is queued, a worker needs at most six of its own
    steps (the item it may still take, its call, handler and [task_done],
    and the test of the flag). *)
Theorem shutdown_terminates (n : Z) (tr : list action) (s : TaskQueue)
    (w : nat) (p : pc) :
  run behaviour tr (init n) = Some s →
  running s = false →
  workers s !! w = Some p →
  ∃ j s' p',
    j ≤ 6 ∧ run behaviour (replicate j (AWorker w)) s = Some s' ∧
    workers s' !! w = Some p' ∧ ended p' = true.
Proof.
  intros Hrun Hr Hp.
  assert (counter_ok s) as Hok.
  { eapply run_counter_ok; [done|]. apply init_counter_ok. }
  eapply run_to_end; [|done..].
  destruct p as [| |x|x|x|x []| |]; simpl; lia.
Qed.

(** A pool whose workers have all ended only takes submissions. *)
Lemma run_ended_pool tr :
  ∀ s s',
    Forall (λ p, ended p = true) (workers s) →
    run behaviour tr s = Some s' →
    workers s' = workers s ∧
    called (history s') = called (history s) ∧
    Queue.queue (task_queue s') = Queue.queue (task_queue s) ++ submitted tr ∧
    Queue.unfinished_tasks (task_queue s')
    = (Queue.unfinished_tasks (task_queue s)
       + Z.of_nat (length (submitted tr)))%Z.
Proof.
  induction tr as [|a tr IH]; intros s s' Hall Hrun; simpl in Hrun.
  - injection Hrun as <-. rewrite app_nil_r. simpl. repeat split; lia.
  - destruct (step behaviour a s) as [s1|] eqn:Hstep; simpl in Hrun; [|done].
    rewrite submitted_cons.
    assert (workers s1 = workers s ∧
            called (history s1) = called (history s) ∧
            Queue.queue (task_queue s1)
            = Queue.queue (task_queue s) ++ submitted [a] ∧
            Queue.unfinished_tasks (task_queue s1)
            = (Queue.unfinished_tasks (task_queue s)
               + Z.of_nat (length (submitted [a])))%Z)
      as (Hw1 & Hc1 & Hq1 & Hu1).
    { destruct a as [tk r| |w]; simpl in Hstep.
      - unfold submit in Hstep. simpl in Hstep.
        destruct (Queue.put _ _) eqn:Hput; simplify_eq/=. queue_ops. simpl.
        split; [done|]. split; [|done].
        unfold called. rewrite omap_app. simpl. by rewrite app_nil_r.
      - simplify_eq/=. rewrite app_nil_r. repeat split; lia.
      - apply worker_wstep in Hstep as (p & Hp & Hs).
        pose proof (Forall_lookup_1 _ _ _ _ Hall Hp) as He.
        destruct Hs; done. }
    rewrite <- Hw1 in Hall.
    destruct (IH _ _ Hall Hrun) as (Hw & Hc & Hq & Hu).
    split; [congruence|]. split; [congruence|].
    split; [by rewrite Hq, Hq1, app_assoc|].
    rewrite Hu, Hu1, length_app. lia.
Qed.

(** X7.  Once every worker has ended, nothing submitted is ever called:
    [submit] still returns normally and the items pile up in the queue, no
    worker comes back, and after the first such [submit] a [join] can
    never return. *)
Theorem ended_pool_never_runs (n : Z) (tr0 tr : list action)
    (s s' : TaskQueue) :
  run behaviour tr0 (init n) = Some s →
  Forall (λ p, ended p = true) (workers s) →
  run behaviour tr s = Some s' →
  workers s' = workers s ∧
  called (history s') = called (history s) ∧
  Queue.queue (task_queue s') = Queue.queue (task_queue s) ++ submitted tr ∧
  (submitted tr ≠ [] → Queue.join_returns (task_queue s') = false).
Proof.
  intros Hrun0 Hall Hrun.
  destruct (run_ended_pool _ _ _ Hall Hrun) as (Hw & Hc & Hq & Hu).
  split; [done|]. split; [done|]. split; [done|].
  intros Hsub.
  assert (counter_ok s) as [_ Hcnt].
  { eapply run_counter_ok; [done|]. apply init_counter_ok. }
  unfold Queue.join_returns. apply bool_decide_eq_false.
  destruct (submitted tr); [done|]. simpl in Hu. lia.
Qed.

(** X8.  A pool made with a number of workers that is not positive has no
    worker at all: [submit] is accepted, nothing is ever called, and after
    the first [submit] a [join] can never return. *)
Theorem empty_pool_never_runs (n : Z) (tr : list action) (s : TaskQueue) :
  (n ≤ 0)%Z →
  run behaviour tr (init n) = Some s →
  workers s = [] ∧
  called (history s) = [] ∧
  Queue.queue (task_queue s) = submitted tr ∧
  (submitted tr ≠ [] → Queue.join_returns (task_queue s) = false).
Proof.
  intros Hn Hrun.
  assert (workers (init n) = []) as Hnil.
  { simpl. by replace (Z.to_nat n) with 0 by lia. }
  destruct (run_ended_pool tr (init n) s) as (Hw & Hc & Hq & Hu); [|done|].
  { rewrite Hnil. constructor. }
  split; [congruence|]. split; [done|]. split; [done|].
  intros Hsub. unfold Queue.join_returns. apply bool_decide_eq_false.
  destruct (submitted tr); [done|]. simpl in Hu. lia.
Qed.

(** With nothing queued and nothing held, a step that is not a [submit]
    calls nothing, prints nothing and leaves the queue as it is. *)
Lemma step_quiet a s s' :
  step behaviour a s = Some s' →
  submitted [a] = [] →
  Queue.queue (task_queue s) = [] →
  Forall (λ p, held p = None) (workers s) →
  task_queue s' = task_queue s ∧
  Forall (λ p, held p = None) (workers s') ∧
  called (history s') = called (history s) ∧
  stdout (history s') = stdout (history s).
Proof.
  intros Hstep Hsub Hq Hall.
  destruct a as [tk r| |w]; simpl in Hstep; [done| |].
  - by simplify_eq/=.
  - apply worker_wstep in Hstep as (p & Hp & Hs).
    pose proof (Forall_lookup_1 _ _ _ _ Hall Hp) as Hh. simpl in Hh.
    destruct Hs; simplify_eq/=;
      unfold called, stdout; rewrite ?omap_app; simpl; rewrite ?app_nil_r;
      try ((split; [done|]); (split; [by apply Forall_insert|done])).
    congruence.
Qed.

(** X9.  A drained pool stays drained: when [join] can return and nothing
    more is submitted, then whatever the workers and [shutdown] do, no task
    is called, nothing is printed and [join] can still return. *)
Theorem drained_is_stable (n : Z) (tr0 tr : list action) (s s' : TaskQueue) :
  run behaviour tr0 (init n) = Some s →
  Queue.join_returns (task_queue s) = true →
  submitted tr = [] →
  run behaviour tr s = Some s' →
  Queue.join_returns (task_queue s') = true ∧
  called (history s') = called (history s) ∧
  stdout (history s') = stdout (history s).
Proof.
  intros Hrun0 Hjoin Hsub Hrun.
  assert (counter_ok s) as Hok.
  { eapply run_counter_ok; [done|]. apply init_counter_ok. }
  destruct (drained s Hok Hjoin) as [Hq Hall].
  clear Hrun0 Hok. revert s Hjoin Hsub Hrun Hq Hall.
  induction tr as [|a tr IH]; intros s Hjoin Hsub Hrun Hq Hall;
    simpl in Hrun.
  - by injection Hrun as <-.
  - destruct (step behaviour a s) as [s1|] eqn:Hstep; simpl in Hrun; [|done].
    rewrite submitted_cons in Hsub. apply app_eq_nil in Hsub as [Ha Htr].
    destruct (step_quiet _ _ _ Hstep Ha Hq Hall) as (Htq & Hall1 & Hc & Ho).
    destruct (IH s1) as (Hj' & Hc' & Ho'); [congruence|done|done|congruence|done|].
    split; [done|]. split; congruence.
Qed.

End Life.

(** ** Accounts of the pool *)

Section Accounts.

Variable behaviour : task → nat → outcome.

Ltac count_events :=
  unfold puts, got, called, completed, stdout, calling in *; simpl in *;
  rewrite ?omap_app, ?length_app, ?sum_list_with_snoc; simpl.

Lemma step_ledger a s s' :
  step behaviour a s = Some s' →
  counter_ok s → ledger_ok s → ledger_ok s'.
Proof.
  unfold ledger_ok. intros Hstep Hok [Hcall Hdone].
  destruct a as [tk r| |w]; simpl in Hstep.
  - unfold submit in Hstep. simpl in Hstep.
    destruct (Queue.put _ _); simplify_eq/=. count_events. lia.
  - by simplify_eq/=.
  - apply worker_wstep in Hstep as (p & Hp & Hs).
    pose proof (λ x, held_counter w p x s Hok Hp) as Hc.
    destruct Hs; queue_ops; count_events; sum_insert;
      unfold holding in *; simpl in *; try lia.
    specialize (Hc _ eq_refl). lia.
Qed.

(** Puts are submissions and resubmissions, and each resubmission follows
    a notice. *)
Lemma step_puts a s s' :
  step behaviour a s = Some s' →
  length (puts (history s')) + sum_list_with resubmitting (workers s')
  + length (stdout (history s))
  = length (puts (history s)) + sum_list_with resubmitting (workers s)
    + length (stdout (history s')) + length (submitted [a]).
Proof.
  intros Hstep.
  destruct a as [tk r| |w]; simpl in Hstep.
  - unfold submit in Hstep. simpl in Hstep.
    destruct (Queue.put _ _); simplify_eq/=. count_events. lia.
  - simplify_eq/=. lia.
  - apply worker_wstep in Hstep as (p & Hp & Hs).
    destruct Hs; count_events; sum_insert; simpl in *; lia.
Qed.

Lemma run_puts tr :
  ∀ s s',
    run behaviour tr s = Some s' →
    length (puts (history s')) + sum_list_with resubmitting (workers s')
    + length (stdout (history s))
    = length (puts (history s)) + sum_list_with resubmitting (workers s)
      + length (stdout (history s')) + length (submitted tr).
Proof.
  induction tr as [|a tr IH]; intros s s' Hrun; simpl in Hrun.
  - injection Hrun as <-. simpl. lia.
  - destruct (step behaviour a s) as [s1|] eqn:Hstep; simpl in Hrun; [|done].
    rewrite submitted_cons, length_app.
    apply step_puts in Hstep. apply IH in Hrun. lia.
Qed.

Lemma run_books n tr s :
  run behaviour tr (init n) = Some s →
  counter_ok s ∧
  length (puts (history s)) + sum_list_with resubmitting (workers s)
  = length (submitted tr) + length (stdout (history s)) ∧
  length (puts (history s))
  = length (called (history s)) + sum_list_with calling (workers s)
    + length (Queue.queue (task_queue s)) ∧
  length (got (history s))
  = length (completed (history s)) + sum_list_with holding (workers s).
Proof.
  intros Hrun.
  pose proof (run_puts _ _ _ Hrun) as Hputs. simpl in Hputs.
  rewrite sum_list_with_replicate_0 in Hputs by done.
  assert (counter_ok s ∧ ledger_ok s) as [Hok [Hcall Hdone]].
  { eapply (run_invariant behaviour (λ s, counter_ok s ∧ ledger_ok s));
      [|done|].
    - intros a s1 s2 Hstep [Hok Hl]. split.
      + by eapply step_counter_ok.
      + by eapply step_ledger.
    - split; [apply init_counter_ok|]. split; simpl;
        by rewrite sum_list_with_replicate_0. }
  assert (fifo_ok s) as Hfifo by (by eapply run_fifo).
  unfold fifo_ok in Hfifo. apply (f_equal length) in Hfifo.
  rewrite length_app in Hfifo.
  split; [done|]. split; [lia|]. split; [lia|done].
Qed.

Lemma idle_workers s :
  Forall (λ p, held p = None) (workers s) →
  sum_list_with calling (workers s) = 0 ∧
  sum_list_with holding (workers s) = 0 ∧
  sum_list_with resubmitting (workers s) = 0 ∧
  sum_list_with owed_pc (workers s) = 0.
Proof.
  intros Hall. repeat split; apply sum_list_with_0;
    (eapply Forall_impl; [exact Hall|]);
    intros [| |x|x|x|x b| |]; done.
Qed.

(** X10.  The books of the pool balance.  In every state it reaches, the
    items put are the submissions and one resubmission per notice printed
    (but for a worker between the two), and each of them is in the queue,
    about to be called, or was called.  When [join] can return, every item
    put was called exactly once and completed: the number of calls is the
    number of submissions plus the number of notices. *)
Theorem drain_accounting (n : Z) (tr : list action) (s : TaskQueue) :
  run behaviour tr (init n) = Some s →
  length (puts (history s)) + sum_list_with resubmitting (workers s)
  = length (submitted tr) + length (stdout (history s)) ∧
  length (puts (history s))
  = length (called (history s)) + sum_list_with calling (workers s)
    + length (Queue.queue (task_queue s)) ∧
  (Queue.join_returns (task_queue s) = true →
   length (called (history s))
   = length (submitted tr) + length (stdout (history s)) ∧
   length (completed (history s)) = length (called (history s))).
Proof.
  intros Hrun.
  destruct (run_books _ _ _ Hrun) as (Hok & Hputs & Hcall & Hdone).
  assert (fifo_ok s) as Hfifo by (by eapply run_fifo).
  unfold fifo_ok in Hfifo. apply (f_equal length) in Hfifo.
  rewrite length_app in Hfifo.
  split; [done|]. split; [done|].
  intros Hjoin. destruct (drained s Hok Hjoin) as [Hq Hall].
  rewrite Hq in Hfifo, Hcall. simpl in Hfifo, Hcall.
  destruct (idle_workers s Hall) as (H1 & H2 & H3 & _).
  lia.
Qed.

Lemma step_notice a s s' :
  step behaviour a s = Some s' →
  notice_potential s'
  = notice_potential s + sum_list_with owed (submitted [a]).
Proof.
  unfold notice_potential.
  destruct a as [tk r| |w]; simpl.
  - unfold submit. simpl. intros H.
    destruct (Queue.put _ _) eqn:Hput; simplify_eq/=. queue_ops.
    count_events. lia.
  - intros [= <-]. simpl. lia.
  - intros (p & Hp & Hs)%worker_wstep.
    destruct Hs; queue_ops; count_events; sum_insert; simpl in *;
      repeat match goal with
             | H : Queue.queue _ = _ |- _ => rewrite H
             end; simpl;
      unfold owed in *; simpl in *; lia.
Qed.

Lemma run_notice tr :
  ∀ s0 s1,
    run behaviour tr s0 = Some s1 →
    notice_potential s1
    = notice_potential s0 + sum_list_with owed (submitted tr).
Proof.
  induction tr as [|a tr IH]; intros s0 s1 Hrun; simpl in Hrun.
  - injection Hrun as <-. simpl. lia.
  - destruct (step behaviour a s0) as [s2|] eqn:Hstep; simpl in Hrun; [|done].
    rewrite submitted_cons, sum_list_with_app.
    apply step_notice in Hstep. apply IH in Hrun. lia.
Qed.

Lemma notice_potential_init n : notice_potential (init n) = 0.
Proof.
  unfold notice_potential. simpl. by rewrite sum_list_with_replicate_0.
Qed.

(** X11.  The notices are bounded by the retry budgets: the pool prints
    "Retrying task..." at most as often as the submissions allow retries
    in total, a negative [retries] counting as none; and exactly as often
    when every call fails and [join] can return. *)
Theorem notices_bounded (n : Z) (tr : list action) (s : TaskQueue) :
  run behaviour tr (init n) = Some s →
  length (stdout (history s)) ≤ sum_list_with owed (submitted tr) ∧
  ((∀ tk k, behaviour tk k = Fails) →
   Queue.join_returns (task_queue s) = true →
   length (stdout (history s)) = sum_list_with owed (submitted tr)).
Proof.
  intros Hrun.
  pose proof (run_notice _ _ _ Hrun) as H.
  rewrite notice_potential_init in H.
  split; [unfold notice_potential in H; lia|].
  intros Hfail Hjoin.
  assert (counter_ok s) as Hok.
  { eapply run_counter_ok; [done|]. apply init_counter_ok. }
  destruct (drained s Hok Hjoin) as [Hq Hall].
  assert (sum_list_with forgone (history s) = 0) as Hforgone.
  { eapply (run_invariant behaviour
              (λ s, sum_list_with forgone (history s) = 0)); [|done|done].
    intros a s1 s2 Hstep H0.
    destruct a as [tk r| |w]; simpl in Hstep.
    - unfold submit in Hstep. simpl in Hstep.
      destruct (Queue.put _ _); simplify_eq/=.
      rewrite sum_list_with_snoc. simpl. lia.
    - by simplify_eq/=.
    - apply worker_wstep in Hstep as (p & Hp & Hs).
      destruct Hs; simpl; rewrite ?sum_list_with_snoc; simpl; try lia;
        rewrite Hfail in *; done. }
  unfold notice_potential in H. rewrite Hq, Hforgone in H. simpl in H.
  destruct (idle_workers s Hall) as (_ & _ & _ & Hw).
  lia.
Qed.

(** X16.  The example program at the end of the file: two workers and
    five submissions of one task with the default [retries].  Whatever the
    task does at each call and however the threads interleave, the pool
    prints at most 15 notices and makes at most 20 calls; when [join] can
    return, each of the five items and of the resubmitted ones was called
    once and completed, so between 5 and 20 calls were made, 5 more than
    notices were printed. *)
Theorem example_program (tr : list action) (s : TaskQueue) :
  submitted tr = replicate 5 (0, 3%Z) →
  run behaviour tr (init 2) = Some s →
  length (stdout (history s)) ≤ 15 ∧
  length (called (history s)) ≤ 20 ∧
  (Queue.join_returns (task_queue s) = true →
   5 ≤ length (called (history s)) ∧
   length (called (history s)) = 5 + length (stdout (history s)) ∧
   length (completed (history s)) = length (called (history s))).
Proof.
  intros Hsub Hrun.
  pose proof (run_notice _ _ _ Hrun) as Hn.
  rewrite notice_potential_init, Hsub in Hn.
  unfold notice_potential in Hn. simpl in Hn.
  destruct (run_books _ _ _ Hrun) as (Hok & Hputs & Hcall & Hdone).
  rewrite Hsub in Hputs. simpl in Hputs.
  assert (fifo_ok s) as Hfifo by (by eapply run_fifo).
  unfold fifo_ok in Hfifo. apply (f_equal length) in Hfifo.
  rewrite length_app in Hfifo.
  split; [lia|]. split; [lia|].
  intros Hjoin. destruct (drained s Hok Hjoin) as [Hq Hall].
  rewrite Hq in Hfifo, Hcall. simpl in Hfifo, Hcall.
  destruct (idle_workers s Hall) as (H1 & H2 & H3 & _).
  lia.
Qed.

End Accounts.

(** ** Lines of descent *)

Lemma calls_fails_settled tk h :
  fails tk h ≤ calls tk h ∧
  calls tk h ≤ fails tk h + sum_list_with (settled tk) h.
Proof.
  unfold fails, calls. induction h as [|e h [IH1 IH2]]; simpl; [lia|].
  destruct e as [| | |w x o| | | |]; simpl; try lia.
  unfold line_item. destruct o; repeat case_decide; lia.
Qed.

Lemma forfeit_all_failed tk h :
  calls tk h ≤ fails tk h → sum_list_with (forfeit tk) h = 0.
Proof.
  induction h as [|e h IH]; simpl; [done|].
  pose proof (calls_fails_settled tk h) as [Hle _].
  unfold fails, calls in *. simpl.
  destruct e as [| | |w x o| | | |]; simpl; try (intros; apply IH; lia).
  unfold line_item. destruct o; repeat case_decide; intros; try lia;
    rewrite IH by lia; lia.
Qed.

Lemma trace_lines tk tr :
  length (submissions tk tr) = sum_list_with (line_item tk) (submitted tr).
Proof.
  unfold submissions, submitted.
  induction tr as [|[tk' r| |w] tr IH]; simpl; try done.
  unfold line_item. simpl. case_decide; simpl; [f_equal|]; exact IH.
Qed.

Section Lines.

Variable behaviour : task → nat → outcome.

(** Only a submission opens a line. *)
Lemma step_lines tk a s s' :
  step behaviour a s = Some s' →
  lines tk s' = lines tk s + sum_list_with (line_item tk) (submitted [a]).
Proof.
  unfold lines.
  destruct a as [tk' r| |w]; simpl.
  - unfold submit. simpl. intros H.
    destruct (Queue.put _ _) eqn:Hput; simplify_eq/=. queue_ops.
    simpl. rewrite !sum_list_with_snoc. simpl. lia.
  - intros [= <-]. simpl. lia.
  - intros (p & Hp & Hs)%worker_wstep.
    destruct Hs; queue_ops; simpl;
      rewrite ?sum_list_with_snoc; simpl;
      sum_insert; simpl in *;
      repeat match goal with
             | H : Queue.queue _ = _ |- _ => rewrite H
             end; simpl;
      rewrite ?bool_decide_eq_true_2, ?bool_decide_eq_false_2 in * by lia;
      repeat case_bool_decide; unfold line_item in *; simpl in *; lia.
Qed.

Lemma run_lines tk tr :
  ∀ s s',
    run behaviour tr s = Some s' →
    lines tk s' = lines tk s + length (submissions tk tr).
Proof.
  induction tr as [|a tr IH]; intros s s' Hrun; simpl in Hrun.
  - injection Hrun as <-. simpl. lia.
  - destruct (step behaviour a s) as [s1|] eqn:Hstep; simpl in Hrun; [|done].
    rewrite trace_lines, submitted_cons, sum_list_with_app,
      <- (trace_lines tk tr).
    apply (step_lines tk) in Hstep. apply IH in Hrun. lia.
Qed.

(** The calls of a task that fails [k] times: the first [k] fail. *)
Lemma step_fails tk k a s s' :
  (∀ i, i < k → behaviour tk i = Fails) →
  (∀ i, k ≤ i → behaviour tk i ≠ Fails) →
  step behaviour a s = Some s' →
  fails tk (history s) = calls tk (history s) `min` k →
  fails tk (history s') = calls tk (history s') `min` k.
Proof.
  intros Hlt Hge Hstep Hinv. unfold fails, calls in *.
  destruct a as [tk' r| |w]; simpl in Hstep.
  - unfold submit in Hstep. simpl in Hstep.
    destruct (Queue.put _ _); simplify_eq/=.
    rewrite !sum_list_with_snoc. simpl. lia.
  - by simplify_eq/=.
  - apply worker_wstep in Hstep as (p & Hp & Hs).
    destruct Hs; simpl; rewrite ?sum_list_with_snoc; simpl; try lia;
      unfold line_item; case_decide; try lia; subst;
      match goal with
      | H : behaviour _ ?i = _ |- _ =>
          destruct (decide (i < k)) as [Hi|Hi];
          [rewrite (Hlt _ Hi) in H; try done
          |pose proof (Hge i ltac:(lia)); try congruence]
      end; unfold calls in *; lia.
Qed.

(** X12.  A task submitted once with [retries = R] that fails [k ≤ R]
    times and succeeds from then on is called at most [k + 1] times; when
    [join] can return it was called exactly [k + 1] times, [k] of them
    failing. *)
Theorem completes_after_failures (n : Z) (tr : list action) (s : TaskQueue)
    (tk : task) (R : Z) (k : nat) :
  (∀ i, i < k → behaviour tk i = Fails) →
  (∀ i, k ≤ i → behaviour tk i = Returns) →
  (Z.of_nat k ≤ R)%Z →
  submissions tk tr = [R] →
  run behaviour tr (init n) = Some s →
  calls tk (history s) ≤ k + 1 ∧
  (Queue.join_returns (task_queue s) = true →
   calls tk (history s) = k + 1 ∧ fails tk (history s) = k).
Proof.
  intros Hlt Hge Hk Hsub Hrun.
  assert (fails tk (history s) = calls tk (history s) `min` k) as Hfails.
  { eapply (run_invariant behaviour
              (λ s, fails tk (history s) = calls tk (history s) `min` k));
      [|done|done].
    intros a s1 s2. apply step_fails; [done|].
    intros i Hi. by rewrite (Hge i Hi). }
  pose proof (run_lines tk _ _ _ Hrun) as Hlines.
  rewrite Hsub in Hlines. unfold lines at 2 in Hlines. simpl in Hlines.
  rewrite sum_list_with_replicate_0 in Hlines by done.
  pose proof (calls_fails_settled tk (history s)) as [_ Hcfs].
  assert (calls tk (history s) ≤ k + 1) as Hle.
  { unfold lines in Hlines. lia. }
  split; [done|]. intros Hjoin.
  assert (counter_ok s) as Hok.
  { eapply run_counter_ok; [done|]. apply init_counter_ok. }
  pose proof (run_potential behaviour tk _ _ _ Hrun) as Hpot.
  rewrite potential_init, trace_budget_submissions, Hsub in Hpot.
  rewrite (drained_potential tk s Hok Hjoin) in Hpot.
  simpl in Hpot. unfold budget in Hpot.
  destruct (decide (calls tk (history s) ≤ k)) as [Hsmall|Hbig].
  - rewrite (forfeit_all_failed tk (history s)) in Hpot by lia. lia.
  - lia.
Qed.

End Lines.

Lemma completes_after_failures_witness :
  run (fails_first 2) recovery_scenario (init 2) = Some recovery_final ∧
  Queue.join_returns (task_queue recovery_final) = true ∧
  calls 7 (history recovery_final) = 3 ∧
  fails 7 (history recovery_final) = 2.
Proof.
  assert (run (fails_first 2) recovery_scenario (init 2)
          = Some recovery_final) as Hrun by (vm_compute; reflexivity).
  destruct (completes_after_failures (fails_first 2) 2 recovery_scenario
              recovery_final 7 5 2) as [_ H].
  - intros i Hi. unfold fails_first. by rewrite decide_True.
  - intros i Hi. unfold fails_first. by rewrite decide_False by lia.
  - lia.
  - reflexivity.
  - exact Hrun.
  - split; [exact Hrun|]. split; [reflexivity|]. exact (H eq_refl).
Defined.

(** ** Order and range of what is queued *)

Section Order.

Variable behaviour : task → nat → outcome.

(** X13.  With one worker the pool is serial, retries included: items are
    called, and completed, in the order in which they were put on the
    queue, a resubmitted item taking its turn behind what was queued
    before it. *)
Theorem single_worker_serial (tr : list action) (s : TaskQueue) :
  run behaviour tr (init 1) = Some s →
  called (history s) `prefix_of` puts (history s) ∧
  completed (history s) `prefix_of` puts (history s) ∧
  length (called (history s)) ≤ S (length (completed (history s))).
Proof.
  intros Hrun.
  assert (counter_ok s ∧ serial_ok s) as [_ (p & Hw & Hdone & Hcall)].
  { eapply (run_invariant behaviour (λ s, counter_ok s ∧ serial_ok s));
      [|done|].
    - intros a s1 s2 Hstep [Hok Hser]. split.
      + by eapply step_counter_ok.
      + by eapply step_serial.
    - split; [apply init_counter_ok|apply init_serial]. }
  assert (fifo_ok s) as Hfifo by (by eapply run_fifo).
  unfold fifo_ok in Hfifo.
  split; [|split].
  - rewrite <- Hfifo, <- Hcall, <- app_assoc. by eexists.
  - rewrite <- Hfifo, <- Hdone, <- app_assoc. by eexists.
  - apply (f_equal length) in Hdone, Hcall.
    rewrite length_app in Hdone, Hcall.
    destruct p as [| |x|x|x|x b| |]; simpl in Hdone, Hcall; lia.
Qed.

Lemma step_range M a s s' :
  step behaviour a s = Some s' →
  Forall (in_range M) (submitted [a]) →
  Forall (in_range M) (Queue.queue (task_queue s)) ∧
  Forall (pc_in_range M) (workers s) ∧
  Forall (in_range M) (puts (history s)) ∧
  Forall (in_range M) (called (history s)) →
  Forall (in_range M) (Queue.queue (task_queue s')) ∧
  Forall (pc_in_range M) (workers s') ∧
  Forall (in_range M) (puts (history s')) ∧
  Forall (in_range M) (called (history s')).
Proof.
  intros Hstep Ha (Hq & Hw & Hp & Hc).
  destruct a as [tk r| |w]; simpl in Hstep.
  - unfold submit in Hstep. simpl in Hstep.
    destruct (Queue.put _ _) eqn:Hput; simplify_eq/=. queue_ops. simpl.
    unfold puts, called. rewrite !omap_app. simpl. rewrite app_nil_r.
    split; [apply Forall_app; by split|]. split; [done|].
    split; [apply Forall_app; by split|done].
  - by simplify_eq/=.
  - apply worker_wstep in Hstep as (p & Hpc & Hs).
    pose proof (Forall_lookup_1 _ _ _ _ Hw Hpc) as Hin. simpl in Hin.
    destruct Hs; queue_ops; simpl; simpl in Hin;
      unfold puts, called in *; rewrite ?omap_app; simpl;
      rewrite ?app_nil_r;
      try match goal with
          | H : Queue.queue _ = _ |- _ => rewrite ?H; rewrite H in Hq
          end;
      try (apply Forall_cons in Hq as [Hx Hrest]);
      split_and!;
      first
        [ assumption
        | apply Forall_insert; [assumption|];
          simpl; unfold in_range in *; simpl in *;
          first [assumption|exact I|lia]
        | apply Forall_app; split; [assumption|];
          apply Forall_cons; split; [|constructor];
          unfold in_range in *; simpl in *; first [assumption|lia] ].
Qed.

(** X14.  The retry budget never grows and never goes below zero by
    itself: if every submission has [0 ≤ retries ≤ M], so has every item
    ever put on the queue, every item called, and every item queued. *)
Theorem retries_in_range (M : Z) (n : Z) (tr : list action) (s : TaskQueue) :
  Forall (in_range M) (submitted tr) →
  run behaviour tr (init n) = Some s →
  Forall (in_range M) (puts (history s)) ∧
  Forall (in_range M) (called (history s)) ∧
  Forall (in_range M) (Queue.queue (task_queue s)).
Proof.
  intros Hsub Hrun.
  assert (∀ tr s0 s1,
    Forall (in_range M) (submitted tr) →
    run behaviour tr s0 = Some s1 →
    Forall (in_range M) (Queue.queue (task_queue s0)) ∧
    Forall (pc_in_range M) (workers s0) ∧
    Forall (in_range M) (puts (history s0)) ∧
    Forall (in_range M) (called (history s0)) →
    Forall (in_range M) (Queue.queue (task_queue s1)) ∧
    Forall (pc_in_range M) (workers s1) ∧
    Forall (in_range M) (puts (history s1)) ∧
    Forall (in_range M) (called (history s1))) as H.
  { clear. induction tr as [|a tr IH]; intros s0 s1 Hsub Hrun Hinv;
      simpl in Hrun.
    - by injection Hrun as <-.
    - destruct (step behaviour a s0) as [s2|] eqn:Hstep; simpl in Hrun;
        [|done].
      rewrite submitted_cons in Hsub. apply Forall_app in Hsub as [Ha Htr].
      eapply IH; [done|done|]. by eapply step_range. }
  destruct (H _ _ _ Hsub Hrun) as (Hq & _ & Hp & Hc).
  { simpl. repeat split; try constructor. by apply Forall_replicate. }
  done.
Qed.



End Order.

(** ** The theorems at work on the scenarios *)

Lemma running_until_shutdown_witness :
  running shutdown_state = false ∧ running retry_final = true.
Proof.
  split.
  - rewrite (running_until_shutdown (always Returns) 1 shutdown_scenario
               shutdown_state); [reflexivity|vm_compute; reflexivity].
  - rewrite (running_until_shutdown (always Fails) 2 retry_scenario
               retry_final); [reflexivity|vm_compute; reflexivity].
Defined.

Lemma pool_size_fixed_witness : length (workers retry_final) = 2.
Proof.
  destruct (pool_size_fixed (always Fails) 2 retry_scenario retry_final)
    as [H _]; [vm_compute; reflexivity|exact H].
Defined.

Lemma no_exit_before_shutdown_witness :
  AShutdown ∈ exited_scenario ∧ running exited_state = false.
Proof.
  apply (no_exit_before_shutdown (always Returns) 1 exited_scenario
           exited_state 0).
  - vm_compute; reflexivity.
  - reflexivity.
Defined.

Lemma workers_survive_witness :
  WHead ≠ WDied ∧ (AShutdown ∉ retry_scenario → ended WHead = false).
Proof.
  apply (workers_survive (always Fails) 2 retry_scenario retry_final 0 WHead).
  - intros tk k. discriminate.
  - vm_compute; reflexivity.
  - reflexivity.
Defined.

Lemma one_more_dequeue_witness :
  run (always Returns) (replicate 3 (AWorker 0)) shutdown_state
  = Some left_behind ∧
  Queue.queue (task_queue left_behind) = [(8, 3%Z)] ∧
  dequeues 0 (history left_behind) ≤ 1.
Proof.
  assert (run (always Returns) (replicate 3 (AWorker 0)) shutdown_state
          = Some left_behind) as Hrun by (vm_compute; reflexivity).
  split; [exact Hrun|]. split; [reflexivity|].
  apply (one_more_dequeue (always Returns) (replicate 3 (AWorker 0))
           shutdown_state left_behind 0 (WCall (7, 3%Z)));
    [reflexivity|reflexivity|exact Hrun].
Defined.

Lemma shutdown_terminates_witness :
  ∃ j s' p',
    j ≤ 6 ∧
    run (always Returns) (replicate j (AWorker 0)) shutdown_state = Some s' ∧
    workers s' !! 0 = Some p' ∧ ended p' = true.
Proof.
  apply (shutdown_terminates (always Returns) 1 shutdown_scenario
           shutdown_state 0 (WCall (7, 3%Z))).
  - vm_compute; reflexivity.
  - reflexivity.
  - reflexivity.
Defined.

Lemma ended_pool_never_runs_witness :
  run (always Exits) [ASubmit 9 None; AShutdown] dead_pool = Some piled_up ∧
  workers piled_up = [WDied] ∧
  Queue.queue (task_queue piled_up) = [(9, 3%Z)] ∧
  Queue.join_returns (task_queue piled_up) = false.
Proof.
  assert (run (always Exits) [ASubmit 9 None; AShutdown] dead_pool
          = Some piled_up) as Hrun by (vm_compute; reflexivity).
  destruct (ended_pool_never_runs (always Exits) 1 sysexit_scenario
              [ASubmit 9 None; AShutdown] dead_pool piled_up)
    as (Hw & _ & Hq & Hj).
  - vm_compute; reflexivity.
  - repeat constructor.
  - exact Hrun.
  - split; [exact Hrun|]. split; [exact Hw|]. split; [exact Hq|].
    by apply Hj.
Defined.

Lemma empty_pool_never_runs_witness :
  run (always Returns) [ASubmit 1 None; ASubmit 2 (Some 0%Z)] (init (-1))
  = Some no_workers ∧
  called (history no_workers) = [] ∧
  Queue.queue (task_queue no_workers) = [(1, 3%Z); (2, 0%Z)] ∧
  Queue.join_returns (task_queue no_workers) = false.
Proof.
  assert (run (always Returns) [ASubmit 1 None; ASubmit 2 (Some 0%Z)]
            (init (-1)) = Some no_workers) as Hrun
    by (vm_compute; reflexivity).
  destruct (empty_pool_never_runs (always Returns) (-1)
              [ASubmit 1 None; ASubmit 2 (Some 0%Z)] no_workers)
    as (_ & Hc & Hq & Hj).
  - lia.
  - exact Hrun.
  - split; [exact Hrun|]. split; [exact Hc|]. split; [exact Hq|].
    by apply Hj.
Defined.

Lemma drained_is_stable_witness :
  run (always Fails) [AWorker 1; AWorker 1; AShutdown; AWorker 1] retry_final
  = Some still_drained ∧
  Queue.join_returns (task_queue still_drained) = true ∧
  called (history still_drained) = called (history retry_final).
Proof.
  assert (run (always Fails) [AWorker 1; AWorker 1; AShutdown; AWorker 1]
            retry_final = Some still_drained) as Hrun
    by (vm_compute; reflexivity).
  destruct (drained_is_stable (always Fails) 2 retry_scenario
              [AWorker 1; AWorker 1; AShutdown; AWorker 1] retry_final
              still_drained)
    as (Hj & Hc & _).
  - vm_compute; reflexivity.
  - reflexivity.
  - reflexivity.
  - exact Hrun.
  - split; [exact Hrun|]. split; [exact Hj|exact Hc].
Defined.

Lemma drain_accounting_witness :
  run sample_outcomes main_scenario (init 2) = Some main_final ∧
  length (submitted main_scenario) = 5 ∧
  length (stdout (history main_final)) = 1 ∧
  length (called (history main_final)) = 5 + 1 ∧
  length (completed (history main_final))
  = length (called (history main_final)).
Proof.
  assert (run sample_outcomes main_scenario (init 2) = Some main_final)
    as Hrun by (vm_compute; reflexivity).
  destruct (drain_accounting sample_outcomes 2 main_scenario main_final Hrun)
    as (_ & _ & H).
  destruct (H eq_refl) as [Hc Hd].
  split; [exact Hrun|]. split; [reflexivity|]. split; [reflexivity|].
  split; [exact Hc|exact Hd].
Defined.

Lemma notices_bounded_witness :
  length (stdout (history main_final)) ≤ 15 ∧
  length (stdout (history retry_final)) = 2.
Proof.
  split.
  - destruct (notices_bounded sample_outcomes 2 main_scenario main_final)
      as [H _]; [vm_compute; reflexivity|exact H].
  - destruct (notices_bounded (always Fails) 2 retry_scenario retry_final)
      as [_ H]; [vm_compute; reflexivity|].
    exact (H (λ _ _, eq_refl) eq_refl).
Defined.

Lemma single_worker_serial_witness :
  called (history overtaking_final) `prefix_of` puts (history overtaking_final) ∧
  called (history overtaking_final) = [(1, 1%Z); (2, 3%Z); (1, 0%Z)].
Proof.
  destruct (single_worker_serial flaky_once overtaking_scenario
              overtaking_final) as (H & _ & _).
  - vm_compute; reflexivity.
  - split; [exact H|reflexivity].
Defined.

Lemma retries_in_range_witness :
  Forall (in_range 3) (puts (history main_final)) ∧
  Forall (in_range 3) (called (history main_final)).
Proof.
  destruct (retries_in_range sample_outcomes 3 2 main_scenario main_final)
    as (Hp & Hc & _).
  - assert (submitted main_scenario = replicate 5 (0, 3%Z)) as ->
      by reflexivity.
    apply Forall_replicate. unfold in_range. simpl. lia.
  - vm_compute; reflexivity.
  - split; [exact Hp|exact Hc].
Defined.


Lemma example_program_witness :
  run sample_outcomes main_scenario (init 2) = Some main_final ∧
  Queue.join_returns (task_queue main_final) = true ∧
  length (called (history main_final)) = 6 ∧
  length (stdout (history main_final)) = 1.
Proof.
  assert (run sample_outcomes main_scenario (init 2) = Some main_final)
    as Hrun by (vm_compute; reflexivity).
  destruct (example_program sample_outcomes main_scenario main_final eq_refl Hrun)
    as (_ & _ & H).
  destruct (H eq_refl) as (_ & Hc & _).
  split; [exact Hrun|]. split; [reflexivity|]. split; [|reflexivity].
  rewrite Hc. reflexivity.
Defined.
